(** * dw3-g1-front: the card display and the account update form

    A shallow embedding of [src/components/CreditCard/index.jsx]: the
    [CreditCard] display component and the [UpdateForm] component with its
    zod [schema], its loader [loadAccountData] and its two handlers
    [handleAtualizarUsuario] and [handleDeletarConta].

    JavaScript strings are sequences of UTF-16 code units, so a string is a
    [list N] here and [length] is the [.length] of the source. *)

From Stdlib Require Import ZArith NArith Ascii String List Lia DecimalString.
From Stdlib Require Import DecimalPos DecimalZ.
From stdpp Require Import base option list gmap strings.

Local Open Scope Z_scope.

(** ** JavaScript strings *)

Module JS.

Abbreviation jsstring := (list N).

(** A source literal written in ASCII, as code units. *)
Definition lit (s : string) : jsstring :=
  map N_of_ascii (list_ascii_of_string s).

Definition space : jsstring := lit " ".

(** [String.prototype.substr(start, length)], both arguments integers:
    a negative [start] counts from the end, the window is clamped to the
    string and never fails. *)
Definition substr (s : jsstring) (start len : Z) : jsstring :=
  let size := Z.of_nat (length s) in
  let intStart := if start <? 0 then Z.max (size + start) 0 else Z.min start size in
  let intLength := Z.min (Z.max len 0) size in
  let intEnd := Z.min (intStart + intLength) size in
  take (Z.to_nat (intEnd - intStart)) (drop (Z.to_nat intStart) s).

(** WhiteSpace and LineTerminator code points of ECMAScript, the ones
    [String.prototype.trim] removes. *)
Definition is_white_space (c : N) : bool :=
  match c with
  | 9 | 10 | 11 | 12 | 13 | 32 | 160 | 5760
  | 8192 | 8193 | 8194 | 8195 | 8196 | 8197 | 8198 | 8199 | 8200 | 8201 | 8202
  | 8232 | 8233 | 8239 | 8287 | 12288 | 65279 => true
  | _ => false
  end%N.

Fixpoint trimStart (s : jsstring) : jsstring :=
  match s with
  | c :: s' => if is_white_space c then trimStart s' else s
  | [] => []
  end.

Definition trimEnd (s : jsstring) : jsstring :=
  reverse (trimStart (reverse s)).

Definition trim (s : jsstring) : jsstring := trimEnd (trimStart s).

Definition underscore : N := 95.

(** [s.replace(/_/gi, '')]: every underscore is deleted (the underscore has
    no other case, so the [i] flag changes nothing). *)
Definition remove_underscores (s : jsstring) : jsstring :=
  filter (fun c => c ≠ underscore) s.

Definition is_digit (c : N) : bool := ((48 <=? c) && (c <=? 57))%N.

End JS.

Import JS.

(** ** The [CreditCard] component *)

Record card_view := {
  cardNumber : jsstring;
  expiration : jsstring;
  cvv : jsstring;
}.

(** The text of the [cardNumber] element. *)
Definition cardNumberText (numeroCartao : jsstring) : jsstring :=
  substr numeroCartao 0 4 ++ space ++
  substr numeroCartao 4 4 ++ space ++
  substr numeroCartao 8 4 ++ space ++
  substr numeroCartao 12 4.

Definition CreditCard (numeroCartao validadeCartao cvcCartao : jsstring) : card_view :=
  {| cardNumber := cardNumberText numeroCartao;
     expiration := substr validadeCartao 5 5;
     cvv := cvcCartao |}.

(** ** JavaScript values *)

(** The values that travel through the form. [VNumber n] is the Number
    whose value is the integer [n], for [n] a safe integer (see
    [number_in_range]). A Number is a double: beyond the safe integers not
    every integer is one, and [String] prints the shortest digits that read
    back as the same double, in exponent notation from [10^21] on. Those
    Numbers, and the fractional ones, are outside the model: what is said of
    the text of a Number is said under [number_in_range]. *)
Inductive value :=
| VUndefined
| VNull
| VBoolean (b : bool)
| VNumber (n : Z)
| VString (s : jsstring).

(** The safe integers, [Number.isSafeInteger]: every one of them is a
    double, and [String] prints exactly its decimal digits. *)
Definition number_in_range (n : Z) : Prop := Z.abs n < 2 ^ 53.

(** The decimal digits of an integer, with a minus sign when negative: the
    text [String] gives for a Number that is a safe integer. *)
Definition decimal (n : Z) : jsstring :=
  lit (NilZero.string_of_int (Z.to_int n)).

(** The call [String(v)]; on a Number, for the safe integers only. *)
Definition String_ (v : value) : value :=
  VString match v with
          | VUndefined => lit "undefined"
          | VNull => lit "null"
          | VBoolean true => lit "true"
          | VBoolean false => lit "false"
          | VNumber n => decimal n
          | VString s => s
          end.

(** ** The validation schema *)

Module Zod.

Inductive issue :=
| invalid_type
| too_small (message : jsstring)
| custom (message : jsstring).

(** A zod type, as the list of issues that parsing a value raises; the
    empty list is success. *)
Definition type : Type := value → list issue.

Definition string : type := fun v =>
  match v with VString _ => [] | _ => [invalid_type] end.

(** [.refine(check, { message })] on a string type: the check runs only
    when the type itself raised nothing. *)
Definition refine (t : type) (check : jsstring → bool) (message : jsstring) : type :=
  fun v =>
    match t v, v with
    | [], VString s => if check s then [] else [custom message]
    | issues, _ => issues
    end.

(** [.min(n, message)] on a string type. *)
Definition min (t : type) (n : nat) (message : jsstring) : type :=
  fun v =>
    match t v, v with
    | [], VString s => if (n <=? length s)%nat then [] else [too_small message]
    | issues, _ => issues
    end.

Definition optional (t : type) : type := fun v =>
  match v with VUndefined => [] | _ => t v end.

(** [z.object(shape)] on an object: every key of the shape is parsed, an
    absent key as [undefined]. *)
Definition object (shape : list (String.string * type))
    (o : gmap String.string value) : list (String.string * issue) :=
  flat_map (fun '(key, t) => map (pair key) (t (default VUndefined (o !! key)))) shape.

End Zod.

Module Msg.
(** The user-facing copy of the source; the accented letters are written as
    their code units. *)
Definition nome_invalido : jsstring := lit "Digite um nome v" ++ [225%N] ++ lit "lido.".
Definition cep_invalido : jsstring := lit "Digite um CEP v" ++ [225%N] ++ lit "lido".
Definition telefone_invalido : jsstring := lit "Digite um telefone v" ++ [225%N] ++ lit "lido".
Definition senha_curta : jsstring :=
  lit "A senha deve conter no m" ++ [237%N] ++ lit "nimo 8 caracteres".
Definition erro_servidor : jsstring := lit "Erro no servidor.".
Definition verifique : jsstring := lit "Verifique os dados e tente novamente.".
Definition mais_tarde : jsstring := lit "Tente novamente mais tarde.".
Definition um_erro : jsstring := lit "Um erro ocorreu".
Definition confirmar : jsstring :=
  lit "Voc" ++ [234%N] ++ lit " deseja realmente apagar a conta?".
End Msg.

Definition nome_check (name : jsstring) : bool :=
  negb (length (trim name) =? 0)%nat.

Definition cep_check (cep : jsstring) : bool :=
  (length (remove_underscores (trim cep)) =? 9)%nat.

Definition telefone_check (telefone : jsstring) : bool :=
  (length (remove_underscores (trim telefone)) =? 17)%nat.

Definition schema_nome : Zod.type :=
  Zod.optional (Zod.refine Zod.string nome_check Msg.nome_invalido).
Definition schema_endereco : Zod.type := Zod.string.
Definition schema_cep : Zod.type :=
  Zod.optional (Zod.refine Zod.string cep_check Msg.cep_invalido).
Definition schema_numero : Zod.type := Zod.string.
Definition schema_telefone : Zod.type :=
  Zod.optional (Zod.refine Zod.string telefone_check Msg.telefone_invalido).
Definition schema_senha : Zod.type :=
  Zod.optional (Zod.min Zod.string 8 Msg.senha_curta).

Definition schema : gmap string value → list (string * Zod.issue) :=
  Zod.object
    [ ("nome", schema_nome); ("endereco", schema_endereco); ("cep", schema_cep);
      ("numero", schema_numero); ("telefone", schema_telefone);
      ("senha", schema_senha) ]%string.

(** ** Effects of the [UpdateForm] component *)

(** What a [catch] clause can receive. [AppError] is an instance of the
    class imported from [@utils/AppError]; [TypeError] is what a property
    read on [undefined] throws; [OtherError] is any other thrown value. Each
    carries the value of its [message] property. *)
Inductive error :=
| AppError (message : value)
| TypeError (message : value)
| OtherError (message : value).

Definition instanceof_AppError (e : error) : bool :=
  match e with AppError _ => true | _ => false end.

Definition error_message (e : error) : value :=
  match e with
  | AppError m | TypeError m | OtherError m => m
  end.

(** A settled promise. *)
Inductive outcome (A : Type) :=
| Resolved (a : A)
| Rejected (e : error).
Arguments Resolved {A} a.
Arguments Rejected {A} e.

(** The payload of [GET /conta]: [data.cliente] and the five properties the
    loader reads from it. *)
Record Cliente := {
  nome : value;
  endereco : value;
  cep : value;
  numero : value;
  telefone : value;
}.

Record conta := { cliente : option Cliente }.

(** The calls the component makes on its collaborators. *)
Inductive effect : Type → Type :=
| api_get (path : jsstring) : effect (outcome conta)
| api_put (path : jsstring) (body : gmap string value) : effect (outcome unit)
| api_delete (path : jsstring) : effect (outcome unit)
| setIsLoading (b : bool) : effect unit
| setValue (name : string) (v : value) : effect unit
| showToast (title description : value) (isError : bool) : effect unit
| alert (message : jsstring) : effect unit
| console_log (e : error) : effect unit
| window_confirm (message : jsstring) : effect bool
| logout : effect unit.

Inductive event :=
| Call {X : Type} (op : effect X).

(** Programs: a result, a thrown error, or a call and what follows it. *)
Inductive prog (A : Type) : Type :=
| Ret (a : A)
| Throw (e : error)
| Vis {X : Type} (op : effect X) (k : X → prog A).
Arguments Ret {A} a.
Arguments Throw {A} e.
Arguments Vis {A X} op k.

Fixpoint bind {A B : Type} (p : prog A) (f : A → prog B) : prog B :=
  match p with
  | Ret a => f a
  | Throw e => Throw e
  | Vis op k => Vis op (fun x => bind (k x) f)
  end.

Fixpoint try_catch {A : Type} (body : prog A) (handler : error → prog A) : prog A :=
  match body with
  | Ret a => Ret a
  | Throw e => handler e
  | Vis op k => Vis op (fun x => try_catch (k x) handler)
  end.

Definition call {X : Type} (op : effect X) : prog X := Vis op Ret.

(** [await] of a promise: a rejection is thrown at the [await]. *)
Definition await {X : Type} (op : effect (outcome X)) : prog X :=
  Vis op (fun r => match r with Resolved x => Ret x | Rejected e => Throw e end).

(** [data.cliente], whose properties are read next: a [TypeError] when it
    is missing (its message is the engine's and is never looked at). *)
Definition get_cliente (data : conta) : prog Cliente :=
  match cliente data with
  | Some c => Ret c
  | None => Throw (TypeError (VString (lit "Cannot read properties of undefined")))
  end.

#[export] Instance prog_ret : MRet prog := @Ret.
#[export] Instance prog_bind : MBind prog := fun A B f p => bind p f.

(** ** The loader and the two handlers *)

Definition loadAccountData : prog unit :=
  try_catch (
    call (setIsLoading true) ;;
    data ← await (api_get (lit "/conta"));
    c ← get_cliente data;
    call (setValue "nome" (nome c)) ;;
    call (setValue "endereco" (endereco c)) ;;
    call (setValue "cep" (cep c)) ;;
    call (setValue "numero" (String_ (numero c))) ;;
    call (setValue "telefone" (telefone c)) ;;
    call (setIsLoading false)
  ) (fun error =>
    call (alert Msg.um_erro) ;;
    call (console_log error)).

(** A call of an async function whose promise is dropped: whatever it
    rejects with never reaches the caller. The only such call,
    [loadAccountData()], is the last statement of its [try] block, so the
    calls of one run happen in the order written here. *)
Definition not_awaited {A : Type} (p : prog A) : prog unit :=
  try_catch (p ;; Ret tt) (fun _ => Ret tt).

Definition handleAtualizarUsuario (formData : gmap string value) : prog unit :=
  try_catch (
    await (api_put (lit "/clientes") formData) ;;
    not_awaited loadAccountData
  ) (fun error =>
    let isAppError := instanceof_AppError error in
    let title := if isAppError then error_message error else VString Msg.erro_servidor in
    let description :=
      if isAppError then VString Msg.verifique else VString Msg.mais_tarde in
    call (showToast title description true)).

Definition handleDeletarConta : prog unit :=
  proceedWithDeleting ← call (window_confirm Msg.confirmar);
  if proceedWithDeleting : bool then
    try_catch (
      await (api_delete (lit "/clientes")) ;;
      call logout
    ) (fun error =>
      let isAppError := instanceof_AppError error in
      let title := if isAppError then error_message error else VString Msg.erro_servidor in
      let description :=
        if isAppError then VString Msg.verifique else VString Msg.mais_tarde in
      call (showToast title description true))
  else Ret tt.

(** ** The state of a mounted form and the world around it *)

(** Modelled from the spec: [logout] of [@contexts/AuthContext.jsx], which
    is not under src/. The spec says of it: "triggers a logout (clearing the
    session/authentication context, redirecting to a logged-out state)". *)
Inductive session := LoggedIn | LoggedOut.

Definition AuthContext_logout (_ : session) : session := LoggedOut.

Record toast := {
  toast_title : value;
  toast_description : value;
  toast_isError : bool;
}.

(** [isLoading] is the component's own [useState]; [values], [errors] and
    [isSubmitting] are the state that [useForm] keeps ([isSubmitting] is true
    from the moment [handleSubmit] starts until the handler it wraps has
    settled); [log] records every call made so far, oldest first. *)
Record state := {
  isLoading : bool;
  values : gmap string value;
  errors : gmap string jsstring;
  isSubmitting : bool;
  toasts : list toast;
  auth : session;
  log : list event;
}.

(** What the collaborators answer, given everything that happened before. *)
Record world := {
  get_answer : list event → jsstring → outcome conta;
  put_answer : list event → jsstring → gmap string value → outcome unit;
  delete_answer : list event → jsstring → outcome unit;
  confirm_answer : list event → jsstring → bool;
}.

Definition record (ev : event) (st : state) : state :=
  {| isLoading := isLoading st; values := values st; errors := errors st;
     isSubmitting := isSubmitting st; toasts := toasts st; auth := auth st;
     log := log st ++ [ev] |}.

Definition with_isLoading (b : bool) (st : state) : state :=
  {| isLoading := b; values := values st; errors := errors st;
     isSubmitting := isSubmitting st; toasts := toasts st; auth := auth st;
     log := log st |}.

Definition with_value (name : string) (v : value) (st : state) : state :=
  {| isLoading := isLoading st; values := <[name := v]> (values st);
     errors := errors st; isSubmitting := isSubmitting st; toasts := toasts st;
     auth := auth st; log := log st |}.

Definition with_toast (t : toast) (st : state) : state :=
  {| isLoading := isLoading st; values := values st; errors := errors st;
     isSubmitting := isSubmitting st; toasts := toasts st ++ [t]; auth := auth st;
     log := log st |}.

Definition with_auth (s : session) (st : state) : state :=
  {| isLoading := isLoading st; values := values st; errors := errors st;
     isSubmitting := isSubmitting st; toasts := toasts st; auth := s;
     log := log st |}.

(** One call: its answer and the state after it. *)
Definition perform {X : Type} (op : effect X) (w : world) (st : state) : state * X :=
  let st' := record (Call op) st in
  match op in effect X return state * X with
  | api_get path => (st', get_answer w (log st) path)
  | api_put path body => (st', put_answer w (log st) path body)
  | api_delete path => (st', delete_answer w (log st) path)
  | setIsLoading b => (with_isLoading b st', tt)
  | setValue name v => (with_value name v st', tt)
  | showToast title description isError =>
      (with_toast {| toast_title := title; toast_description := description;
                     toast_isError := isError |} st', tt)
  | alert _ => (st', tt)
  | console_log _ => (st', tt)
  | window_confirm message => (st', confirm_answer w (log st) message)
  | logout => (with_auth (AuthContext_logout (auth st')) st', tt)
  end.

Fixpoint run {A : Type} (p : prog A) (w : world) (st : state) : state * (A + error) :=
  match p with
  | Ret a => (st, inl a)
  | Throw e => (st, inr e)
  | Vis op k => let '(st', x) := perform op w st in run (k x) w st'
  end.

(** The state a handler leaves behind. *)
Definition exec {A : Type} (p : prog A) (w : world) (st : state) : state :=
  fst (run p w st).

(** The calls a handler makes, in order. *)
Fixpoint calls {A : Type} (p : prog A) (w : world) (st : state) : list event :=
  match p with
  | Ret _ | Throw _ => []
  | Vis op k => let '(st', x) := perform op w st in Call op :: calls (k x) w st'
  end.

Definition is_get_conta (ev : event) : bool :=
  match ev with
  | Call (api_get path) => bool_decide (path = lit "/conta")
  | _ => false
  end.

Definition is_logout (ev : event) : bool :=
  match ev with Call logout => true | _ => false end.

Definition is_setValue (ev : event) : bool :=
  match ev with Call (setValue _ _) => true | _ => false end.

Definition count (f : event → bool) (l : list event) : nat :=
  length (filter (fun ev => f ev = true) l).

(** The state at mount: [useState(true)], an empty form, a live session. *)
Definition initial : state :=
  {| isLoading := true; values := ∅; errors := ∅; isSubmitting := false;
     toasts := []; auth := LoggedIn; log := [] |}.

(** ** What [UpdateForm] renders *)

Record input_view := {
  input_label : jsstring;
  input_type : jsstring;
  input_value : option value;
  input_errors : option jsstring;
  input_placeholder : option jsstring;
  input_mask : option jsstring;
}.

Record button_view := {
  titulo : jsstring;
  disabled : bool;
}.

Inductive view :=
| Loading
| Section_ (inputs : list input_view) (submit : button_view)
    (ToastComponents : list toast) (delete : button_view).

Definition cep_mask : jsstring := lit "99999-999".
Definition telefone_mask : jsstring := lit "+5\5 99 99999-9999".

(** What react-hook-form hands to an input as [field.value]: the value
    stored for the field. When nothing is stored, or [undefined] is, it
    falls back to a value of its own keeping (a default, or what the
    mounted input held), which is not in the source: [None]. *)
Definition field_value (stored : option value) : option value :=
  match stored with
  | None | Some VUndefined => None
  | Some v => Some v
  end.

(** A [Controller] with its [Input]. *)
Definition Controller (st : state) (name : string) (label type : jsstring)
    (placeholder mask : option jsstring) : input_view :=
  {| input_label := label; input_type := type;
     input_value := field_value (values st !! name);
     input_errors := errors st !! name;
     input_placeholder := placeholder; input_mask := mask |}.

Definition UpdateForm (st : state) : view :=
  if isLoading st then Loading
  else
    Section_
      [ Controller st "nome" (lit "Nome Completo") (lit "text") None None;
        Controller st "cep" (lit "CEP") (lit "text")
          (Some (lit "01234-567")) (Some cep_mask);
        Controller st "endereco" (lit "Endere" ++ [231%N] ++ lit "o") (lit "text") None None;
        Controller st "numero" (lit "Numero") (lit "text") None None;
        Controller st "telefone" (lit "Telefone") (lit "text")
          (Some (lit "+55 11 99999-9999")) (Some telefone_mask);
        Controller st "senha" (lit "Senha") (lit "password") None None ]
      {| titulo := lit "Alterar Dados"; disabled := isSubmitting st |}
      (toasts st)
      {| titulo := lit "Deletar Conta"; disabled := false |}.

(** Modelled from the spec: the screen around the form, which is not under
    src/. After a logout the client is in "a logged-out state", where the
    form is not shown. *)
Inductive page :=
| LoggedOutPage
| AccountPage (v : view).

Definition App (st : state) : page :=
  match auth st with
  | LoggedIn => AccountPage (UpdateForm st)
  | LoggedOut => LoggedOutPage
  end.

(** What a user can do with the form. *)
Inductive action :=
| Submit
| ClickDelete
| Edit (field : nat) (v : jsstring).

Definition can_submit (v : view) : bool :=
  match v with
  | Loading => false
  | Section_ _ submit _ _ => negb (disabled submit)
  end.

Definition possible (p : page) (a : action) : bool :=
  match p, a with
  | LoggedOutPage, _ => false
  | AccountPage Loading, _ => false
  | AccountPage v, Submit => can_submit v
  | AccountPage (Section_ _ _ _ delete), ClickDelete => negb (disabled delete)
  | AccountPage (Section_ inputs _ _ _), Edit field _ => bool_decide (field < length inputs)%nat
  end.

(** ** Input masks *)

(** Modelled from the spec: the mask of the [Input] collaborator, which is
    not under src/: "a fixed-length input template with literal separator
    characters and fillable placeholder positions". In the two masks of the
    source a [9] is a digit position, a backslash makes the next character a
    literal, and an unfilled position shows the placeholder [_]. *)
Inductive mask_item :=
| Digit
| Literal (c : N).

Fixpoint parse_mask (m : jsstring) : list mask_item :=
  match m with
  | [] => []
  | 92%N :: c :: m' => Literal c :: parse_mask m'
  | 57%N :: m' => Digit :: parse_mask m'
  | c :: m' => Literal c :: parse_mask m'
  end.

(** Whether a character can stand at a position of the mask. *)
Definition fits (i : mask_item) (c : N) : bool :=
  match i with
  | Digit => is_digit c || bool_decide (c = underscore)
  | Literal l => bool_decide (c = l)
  end.

Fixpoint mask_shaped (m : list mask_item) (s : jsstring) : bool :=
  match m, s with
  | [], [] => true
  | i :: m', c :: s' => fits i c && mask_shaped m' s'
  | _, _ => false
  end.

Definition digits (s : jsstring) : jsstring :=
  filter (fun c => is_digit c = true) s.

(** The positions of an input that still show the placeholder. *)
Definition unfilled (s : jsstring) : nat :=
  length (filter (fun c => c = underscore) s).

(** The digits a completely filled mask holds: its digit positions and its
    literal digits. *)
Definition holds_digit (i : mask_item) : bool :=
  match i with
  | Digit => true
  | Literal c => is_digit c
  end.

Definition mask_digits (m : list mask_item) : nat :=
  length (filter (fun i => holds_digit i = true) m).

(** A mask none of whose literals is the placeholder and whose literals are
    digits or belong to [separators], which are not digits. *)
Definition mask_literals_ok (separators : jsstring) (i : mask_item) : bool :=
  match i with
  | Digit => true
  | Literal c =>
      negb (bool_decide (c = underscore))
      && (is_digit c || bool_decide (c ∈ separators))
  end.

Definition well_formed_mask (separators : jsstring) (m : list mask_item) : bool :=
  forallb (mask_literals_ok separators) m
  && forallb (fun c => negb (is_digit c)) separators.

(** A position that never holds white space. *)
Definition visible (i : mask_item) : bool :=
  match i with
  | Digit => true
  | Literal c => negb (is_white_space c)
  end.

(** ** The wording of the specification, for comparison *)

(** The two kinds of error toast: a domain error shows its own message and
    the remediation hint, anything else the generic copy. *)
Definition classify (e : error) : toast :=
  match e with
  | AppError message =>
      {| toast_title := message; toast_description := VString Msg.verifique;
         toast_isError := true |}
  | _ =>
      {| toast_title := VString Msg.erro_servidor;
         toast_description := VString Msg.mais_tarde; toast_isError := true |}
  end.

(** The length the spec speaks of: what is left of the input once the
    placeholders and the literal non-digit characters of the mask are
    removed. *)
Definition spec_stripped_length (literals : jsstring) (s : jsstring) : nat :=
  length (filter (fun c => c ∉ literals) (remove_underscores s)).

Definition spec_cep_valid (s : jsstring) : bool :=
  (spec_stripped_length (lit "-") s =? 8)%nat.

Definition spec_telefone_valid (s : jsstring) : bool :=
  (spec_stripped_length (lit "+ -") s =? 13)%nat.

(** The six fields of the form, in the order rendered. *)
Definition form_fields : list string :=
  [ "nome"; "cep"; "endereco"; "numero"; "telefone"; "senha" ]%string.

(** ** Sample data *)

Module Sample.

Definition cliente_ana : Cliente :=
  {| nome := VString (lit "Ana"); endereco := VString (lit "Rua A");
     cep := VString (lit "01234-567"); numero := VNumber 42;
     telefone := VString (lit "+55 11 99999-9999") |}.

Definition app_error : error := AppError (VString (lit "CEP inexistente")).
Definition network_error : error := OtherError (VString (lit "Network Error")).

(** A backend where every request succeeds and the user confirms. *)
Definition all_ok : world :=
  {| get_answer := fun _ _ => Resolved {| cliente := Some cliente_ana |};
     put_answer := fun _ _ _ => Resolved tt;
     delete_answer := fun _ _ => Resolved tt;
     confirm_answer := fun _ _ => true |}.

(** A backend that refuses every write with [e]; the user confirms. *)
Definition failing (e : error) : world :=
  {| get_answer := fun _ _ => Resolved {| cliente := Some cliente_ana |};
     put_answer := fun _ _ _ => Rejected e;
     delete_answer := fun _ _ => Rejected e;
     confirm_answer := fun _ _ => true |}.

(** The user declines the confirmation. *)
Definition declining : world :=
  {| get_answer := fun _ _ => Resolved {| cliente := Some cliente_ana |};
     put_answer := fun _ _ _ => Resolved tt;
     delete_answer := fun _ _ => Resolved tt;
     confirm_answer := fun _ _ => false |}.

Definition formData : gmap string value :=
  {[ "nome" := VString (lit "Ana"); "endereco" := VString (lit "Rua B");
     "cep" := VString (lit "01234-567"); "numero" := VString (lit "42");
     "telefone" := VString (lit "+55 11 99999-9999") ]}%string.

(** The form once its first load has finished. *)
Definition ready : state := exec loadAccountData all_ok initial.

(** The same form while a submit is in flight. *)
Definition submitting : state :=
  {| isLoading := isLoading ready; values := values ready; errors := errors ready;
     isSubmitting := true; toasts := toasts ready; auth := auth ready;
     log := log ready |}.

End Sample.

(** ** Further vocabulary *)

Definition all_white_space (s : jsstring) : Prop :=
  Forall (fun c => is_white_space c = true) s.

(** What reading [o.key] gives: [undefined] for an absent key. *)
Definition field (o : gmap string value) (key : string) : value :=
  default VUndefined (o !! key).

Definition is_string (v : value) : bool :=
  match v with VString _ => true | _ => false end.

(** An optional text field: absent, or a string that satisfies [P]. *)
Definition optional_string (P : jsstring → Prop) (v : value) : Prop :=
  v = VUndefined ∨ ∃ s, v = VString s ∧ P s.

(** The keys of the schema, in the order it reports on them. *)
Definition schema_keys : list string :=
  [ "nome"; "endereco"; "cep"; "numero"; "telefone"; "senha" ]%string.

Definition is_request (ev : event) : bool :=
  match ev with
  | Call (api_get _) | Call (api_put _ _) | Call (api_delete _) => true
  | _ => false
  end.

(** A request that changes something on the server, whatever its path. *)
Definition is_write (ev : event) : bool :=
  match ev with
  | Call (api_put _ _) | Call (api_delete _) => true
  | _ => false
  end.

Definition is_put_clientes (ev : event) : bool :=
  match ev with
  | Call (api_put path _) => bool_decide (path = lit "/clientes")
  | _ => false
  end.

Definition is_delete_clientes (ev : event) : bool :=
  match ev with
  | Call (api_delete path) => bool_decide (path = lit "/clientes")
  | _ => false
  end.

Definition is_confirm (ev : event) : bool :=
  match ev with Call (window_confirm _) => true | _ => false end.

Definition is_showToast (ev : event) : bool :=
  match ev with Call (showToast _ _ _) => true | _ => false end.

(** The [useEffect] of the component: the loader runs once when the form is
    mounted. *)
Definition mount (w : world) : state := exec loadAccountData w initial.

Definition can_delete (v : view) : bool :=
  match v with
  | Loading => false
  | Section_ _ _ _ delete => negb (disabled delete)
  end.

Definition shown_values (v : view) : list (option value) :=
  match v with
  | Loading => []
  | Section_ inputs _ _ _ => map input_value inputs
  end.

Module Sample2.

(** A backend whose read is refused with [e]. *)
Definition read_fails (e : error) : world :=
  {| get_answer := fun _ _ => Rejected e;
     put_answer := fun _ _ _ => Resolved tt;
     delete_answer := fun _ _ => Resolved tt;
     confirm_answer := fun _ _ => true |}.

(** A backend whose read answers without a [cliente]. *)
Definition no_cliente : world :=
  {| get_answer := fun _ _ => Resolved {| cliente := None |};
     put_answer := fun _ _ _ => Resolved tt;
     delete_answer := fun _ _ => Resolved tt;
     confirm_answer := fun _ _ => true |}.

End Sample2.

(** * Properties *)

(** ** Strings *)

Section Strings.

Implicit Types (s : jsstring) (c : N).

Lemma trimStart_suffix s : trimStart s `suffix_of` s.
Proof.
  induction s as [|c s IH]; simpl; [done|].
  destruct (is_white_space c); [apply suffix_cons_r, IH | done].
Qed.

Lemma trimStart_elem c s : c ∈ trimStart s → c ∈ s.
Proof.
  intros Hc. destruct (trimStart_suffix s) as [k ->].
  apply elem_of_app. by right.
Qed.

Lemma trim_elem c s : c ∈ trim s → c ∈ s.
Proof.
  unfold trim, trimEnd. rewrite elem_of_reverse. intros Hc.
  apply trimStart_elem in Hc. rewrite elem_of_reverse in Hc.
  by apply trimStart_elem.
Qed.

Lemma remove_underscores_id s : underscore ∉ s → remove_underscores s = s.
Proof.
  intros Hs. unfold remove_underscores.
  induction s as [|c s IH]; [done|].
  apply not_elem_of_cons in Hs as [Hc Hs].
  rewrite filter_cons_True by done. by rewrite IH.
Qed.

Lemma remove_underscores_trim s :
  underscore ∉ s → remove_underscores (trim s) = trim s.
Proof.
  intros Hs. apply remove_underscores_id. intros Hc. by apply Hs, trim_elem.
Qed.

Lemma no_underscore s :
  forallb (λ c, negb (c =? underscore)%N) s = true → underscore ∉ s.
Proof.
  rewrite forallb_forall. intros Hs Hin. apply list_elem_of_In, Hs in Hin.
  by rewrite N.eqb_refl in Hin.
Qed.

Lemma trimStart_id c s : is_white_space c = false → trimStart (c :: s) = c :: s.
Proof. intros Hc. simpl. by rewrite Hc. Qed.

Lemma trim_id s c d s' s'' :
  s = c :: s' → s = s'' ++ [d] →
  is_white_space c = false → is_white_space d = false → trim s = s.
Proof.
  intros Hhead Hlast Hc Hd. unfold trim, trimEnd.
  rewrite Hhead, trimStart_id by done. rewrite <- Hhead, Hlast.
  rewrite reverse_snoc, trimStart_id by done.
  by rewrite <- reverse_snoc, reverse_involutive.
Qed.

Lemma is_digit_not_white c : is_digit c = true → is_white_space c = false.
Proof.
  unfold is_digit. rewrite andb_true_iff, !N.leb_le. intros [Hlo Hhi].
  destruct (is_white_space c) eqn:Hw; [|done]. exfalso.
  unfold is_white_space in Hw.
  repeat match type of Hw with
         | match ?x with _ => _ end = true => destruct x; try discriminate; try lia
         end.
Qed.

Lemma is_digit_not_underscore c : is_digit c = true → c ≠ underscore.
Proof. intros Hc ->. discriminate. Qed.

End Strings.

Lemma decimal_examples :
  decimal 42 = lit "42" ∧ decimal 0 = lit "0" ∧ decimal (-7) = lit "-7"
  ∧ String_ (VNumber 1203) = VString (lit "1203")
  ∧ String_ (VString (lit "12A")) = VString (lit "12A").
Proof. repeat split; reflexivity. Qed.

(** ** The card display *)

Lemma length_16_inv (n : jsstring) :
  length n = 16%nat →
  ∃ c0 c1 c2 c3 c4 c5 c6 c7 c8 c9 c10 c11 c12 c13 c14 c15,
    n = [c0; c1; c2; c3; c4; c5; c6; c7; c8; c9; c10; c11; c12; c13; c14; c15].
Proof.
  intros Hn.
  do 16 (destruct n as [|? n]; [discriminate Hn|]).
  destruct n; [|discriminate Hn]. by repeat eexists.
Qed.

(** C4. For every 16-character numeric card number the text shown is made of
    four groups of four digits, the characters 0-3, 4-7, 8-11 and 12-15 of
    the number, joined by single spaces: character [i] of the number sits at
    position [i + i / 4], positions 4, 9 and 14 hold a space, and the text is
    19 characters long. *)
Theorem card_number_four_groups (n validade cvc : jsstring) :
  length n = 16%nat →
  Forall (λ c, is_digit c = true) n →
  let text := cardNumber (CreditCard n validade cvc) in
  text = take 4 n ++ space ++ take 4 (drop 4 n) ++ space ++
         take 4 (drop 8 n) ++ space ++ take 4 (drop 12 n)
  ∧ (∀ k, (k < 4)%nat →
       length (take 4 (drop (4 * k) n)) = 4%nat
       ∧ Forall (λ c, is_digit c = true) (take 4 (drop (4 * k) n)))
  ∧ (∀ i, (i < 16)%nat → text !! (i + i / 4)%nat = n !! i)
  ∧ text !! 4%nat = Some 32%N ∧ text !! 9%nat = Some 32%N ∧ text !! 14%nat = Some 32%N
  ∧ length text = 19%nat.
Proof.
  intros Hlen Hdigits text. split; [|split].
  - apply length_16_inv in Hlen as (?&?&?&?&?&?&?&?&?&?&?&?&?&?&?&?&->).
    reflexivity.
  - intros k Hk. split.
    + rewrite length_take, length_drop. lia.
    + by apply Forall_take, Forall_drop.
  - apply length_16_inv in Hlen as (?&?&?&?&?&?&?&?&?&?&?&?&?&?&?&?&->).
    repeat split; try reflexivity.
    intros i Hi. do 16 (destruct i as [|i]; [reflexivity|]). lia.
Qed.

Lemma card_number_four_groups_witness :
  cardNumber (CreditCard (lit "4111111111111111") (lit "2020-12/25") (lit "123"))
  = lit "4111 1111 1111 1111".
Proof.
  pose proof (card_number_four_groups
                (lit "4111111111111111") (lit "2020-12/25") (lit "123")) as H.
  destruct H as [H _].
  - reflexivity.
  - vm_compute. repeat constructor.
  - rewrite H. reflexivity.
Defined.

(** ** The schema on single fields *)

(** C7. The postal code [01234-567], nine characters long, passes the
    schema, alone and inside a form, while [1234-56], seven characters once
    trimmed and stripped, is refused with the message of the CEP field. *)
Theorem cep_examples :
  length (lit "01234-567") = 9%nat
  ∧ schema_cep (VString (lit "01234-567")) = []
  ∧ schema (<["cep" := VString (lit "01234-567")]> Sample.formData) = []
  ∧ length (remove_underscores (trim (lit "1234-56"))) = 7%nat
  ∧ schema_cep (VString (lit "1234-56")) = [Zod.custom Msg.cep_invalido]
  ∧ schema (<["cep" := VString (lit "1234-56")]> Sample.formData)
    = [("cep"%string, Zod.custom Msg.cep_invalido)].
Proof. repeat split; vm_compute; reflexivity. Qed.

(** ** Masked input *)

Section Masks.

Implicit Types (m : list mask_item) (i : mask_item) (s : jsstring) (c : N).

Lemma fits_visible i c : fits i c = true → visible i = true → is_white_space c = false.
Proof.
  destruct i as [|l]; simpl.
  - rewrite orb_true_iff, bool_decide_eq_true. intros [Hc | ->] _; [|done].
    by apply is_digit_not_white.
  - rewrite bool_decide_eq_true, negb_true_iff. by intros ->.
Qed.

Lemma mask_shaped_cons i m c s :
  mask_shaped (i :: m) (c :: s) = true ↔ fits i c = true ∧ mask_shaped m s = true.
Proof. simpl. by rewrite andb_true_iff. Qed.

Lemma mask_shaped_length m s : mask_shaped m s = true → length s = length m.
Proof.
  revert s. induction m as [|i m IH]; intros [|c s]; try discriminate; [done|].
  rewrite mask_shaped_cons. intros [_ Hs]. simpl. by rewrite (IH s).
Qed.

Lemma mask_shaped_head m s c :
  mask_shaped m s = true → head s = Some c →
  ∃ i, head m = Some i ∧ fits i c = true.
Proof.
  destruct m as [|i m], s as [|d s]; try discriminate.
  rewrite mask_shaped_cons. intros [Hd _] [= <-]. by exists i.
Qed.

Lemma mask_shaped_last m s c :
  mask_shaped m s = true → last s = Some c →
  ∃ i, last m = Some i ∧ fits i c = true.
Proof.
  revert s. induction m as [|i m IH]; intros [|d s]; try discriminate.
  rewrite mask_shaped_cons. intros [Hd Hs] Hlast.
  destruct s as [|d' s].
  - destruct m; [|discriminate]. injection Hlast as <-. by exists i.
  - destruct m as [|i' m]; [discriminate|].
    destruct (IH (d' :: s) Hs Hlast) as (j & Hj & Hfit). by exists j.
Qed.

(** An input in the shape of a mask that neither starts nor ends with white
    space is left alone by [trim]. *)
Lemma mask_shaped_trim m s i j :
  head m = Some i → last m = Some j → visible i = true → visible j = true →
  mask_shaped m s = true → trim s = s.
Proof.
  intros Hi Hj Hvi Hvj Hs.
  pose proof (mask_shaped_length _ _ Hs) as Hlen.
  destruct s as [|c s'] eqn:Es; [by destruct m|]. rewrite <- Es in *.
  destruct (last s) as [d|] eqn:Hd; [|by apply last_None in Hd; subst].
  apply last_Some in Hd as Hsnoc. destruct Hsnoc as [s'' Hsnoc].
  destruct (mask_shaped_head m s c Hs) as (i' & Hi' & Hfc); [by rewrite Es|].
  destruct (mask_shaped_last m s d Hs Hd) as (j' & Hj' & Hfd).
  assert (i' = i) as -> by congruence. assert (j' = j) as -> by congruence.
  eapply (trim_id s c d s' s''); eauto using fits_visible.
Qed.

End Masks.

Section MaskCounts.

Implicit Types (m : list mask_item) (i : mask_item) (s : jsstring) (c : N).

Lemma remove_underscores_length s :
  (length (remove_underscores s) + unfilled s = length s)%nat.
Proof.
  unfold remove_underscores, unfilled. induction s as [|c s IH]; [done|].
  destruct (decide (c = underscore)) as [Hc|Hc].
  - rewrite (filter_cons_False _ c) by (intros ?; done).
    rewrite (filter_cons_True (λ c, c = underscore)) by done. simpl. lia.
  - rewrite (filter_cons_True _ c) by done.
    rewrite (filter_cons_False (λ c, c = underscore)) by done. simpl. lia.
Qed.

Lemma fits_cases seps i c :
  mask_literals_ok seps i = true → fits i c = true →
  Forall (λ d, is_digit d = false) seps →
  (c = underscore ∧ i = Digit ∧ is_digit c = false)
  ∨ (c ≠ underscore ∧ is_digit c = true ∧ (c ∉ seps) ∧ holds_digit i = true)
  ∨ (c ≠ underscore ∧ is_digit c = false ∧ (c ∈ seps) ∧ holds_digit i = false).
Proof.
  intros Hok Hfit Hseps. destruct i as [|l]; simpl in *.
  - apply orb_true_iff in Hfit as [Hd | Hu].
    + right; left. split_and!; [by apply is_digit_not_underscore|done| |done].
      intros Hin. rewrite Forall_forall in Hseps. apply Hseps in Hin. congruence.
    + apply bool_decide_eq_true in Hu as ->. by left.
  - apply bool_decide_eq_true in Hfit as ->.
    apply andb_true_iff in Hok as [Hne Hkind].
    apply negb_true_iff, bool_decide_eq_false in Hne.
    destruct (is_digit l) eqn:Hd.
    + right; left. split_and!; [done..| |done].
      intros Hin. rewrite Forall_forall in Hseps. apply Hseps in Hin. congruence.
    + right; right. simpl in Hkind. by apply bool_decide_eq_true in Hkind.
Qed.

Lemma mask_shaped_digits seps m s :
  forallb (mask_literals_ok seps) m = true →
  Forall (λ d, is_digit d = false) seps →
  mask_shaped m s = true →
  (length (digits s) + unfilled s = mask_digits m)%nat
  ∧ filter (λ c, c ∉ seps) (remove_underscores s) = digits s.
Proof.
  intros Hm Hseps. revert s Hm.
  unfold unfilled, mask_digits, digits, remove_underscores.
  induction m as [|i m IH]; intros [|c s] Hm; try discriminate; [done|].
  rewrite mask_shaped_cons. intros [Hfit Hs].
  simpl in Hm. apply andb_true_iff in Hm as [Hi Hm].
  destruct (IH s Hm Hs) as [IHn IHf].
  destruct (fits_cases seps i c Hi Hfit Hseps)
    as [(-> & -> & Hd) | [(Hu & Hd & Hsep & Hh) | (Hu & Hd & Hsep & Hh)]].
  - rewrite (filter_cons_False (λ c, is_digit c = true)) by (by rewrite Hd).
    rewrite (filter_cons_True (λ c, c = underscore)) by done.
    rewrite (filter_cons_True (λ i, holds_digit i = true)) by done.
    rewrite (filter_cons_False (λ c, c ≠ underscore)) by (intros ?; done).
    split; [simpl; lia | done].
  - rewrite (filter_cons_True (λ c, is_digit c = true)) by done.
    rewrite (filter_cons_False (λ c, c = underscore)) by done.
    rewrite (filter_cons_True (λ i, holds_digit i = true)) by done.
    rewrite (filter_cons_True (λ c, c ≠ underscore)) by done.
    rewrite (filter_cons_True (λ c, c ∉ seps)) by done.
    split; [simpl; lia | by rewrite IHf].
  - rewrite (filter_cons_False (λ c, is_digit c = true)) by (by rewrite Hd).
    rewrite (filter_cons_False (λ c, c = underscore)) by done.
    rewrite (filter_cons_False (λ i, holds_digit i = true)) by (by rewrite Hh).
    rewrite (filter_cons_True (λ c, c ≠ underscore)) by done.
    rewrite (filter_cons_False (λ c, c ∉ seps)) by (intros Hn; by apply Hn).
    split; [simpl; lia | done].
Qed.

(** On an input in the shape of a mask, the length the code checks and the
    digit count the specification speaks of say the same thing. *)
Lemma masked_length_iff_digits seps m s i j :
  well_formed_mask seps m = true →
  head m = Some i → last m = Some j → visible i = true → visible j = true →
  mask_shaped m s = true →
  length (remove_underscores (trim s)) = length m
  ↔ spec_stripped_length seps s = mask_digits m.
Proof.
  intros Hwf Hi Hj Hvi Hvj Hs.
  apply andb_true_iff in Hwf as [Hm Hseps].
  assert (Forall (λ d, is_digit d = false) seps) as Hseps'.
  { apply Forall_forall. intros d Hd. rewrite forallb_forall in Hseps.
    apply negb_true_iff, Hseps. by apply list_elem_of_In. }
  rewrite (mask_shaped_trim m s i j) by done.
  destruct (mask_shaped_digits seps m s Hm Hseps' Hs) as [Hn Hf].
  pose proof (remove_underscores_length s) as Hr.
  rewrite (mask_shaped_length m s Hs) in Hr.
  unfold spec_stripped_length. rewrite Hf. lia.
Qed.

End MaskCounts.

(** ** The postal-code and phone rules *)

Lemma refined_string check message s :
  Zod.optional (Zod.refine Zod.string check message) (VString s)
  = if check s then [] else [Zod.custom message].
Proof. reflexivity. Qed.

Lemma schema_cep_passes s :
  schema_cep (VString s) = [] ↔ length (remove_underscores (trim s)) = 9%nat.
Proof.
  unfold schema_cep. rewrite refined_string. unfold cep_check.
  destruct (Nat.eqb_spec (length (remove_underscores (trim s))) 9); naive_solver.
Qed.

Lemma schema_telefone_passes s :
  schema_telefone (VString s) = [] ↔ length (remove_underscores (trim s)) = 17%nat.
Proof.
  unfold schema_telefone. rewrite refined_string. unfold telefone_check.
  destruct (Nat.eqb_spec (length (remove_underscores (trim s))) 17); naive_solver.
Qed.

Lemma schema_cep_fails s :
  length (remove_underscores (trim s)) ≠ 9%nat →
  schema_cep (VString s) = [Zod.custom Msg.cep_invalido].
Proof.
  intros Hs. unfold schema_cep. rewrite refined_string. unfold cep_check.
  by destruct (Nat.eqb_spec (length (remove_underscores (trim s))) 9).
Qed.

Lemma schema_telefone_fails s :
  length (remove_underscores (trim s)) ≠ 17%nat →
  schema_telefone (VString s) = [Zod.custom Msg.telefone_invalido].
Proof.
  intros Hs. unfold schema_telefone. rewrite refined_string. unfold telefone_check.
  by destruct (Nat.eqb_spec (length (remove_underscores (trim s))) 17).
Qed.

(** C1, as amended. A postal code or a phone that is a string passes exactly
    when, trimmed of surrounding white space and then stripped of its
    underscore placeholders, it is 9 (postal code) or 17 (phone) characters
    long, the literal characters of the mask included and whatever the
    characters are; otherwise it is refused with the message of its field.
    For an input in the shape of the field's mask this is the case exactly
    when 8 (postal code) or 13 (phone) characters are left once the
    placeholders and the literal non-digit characters of the mask are
    removed. *)
Theorem cep_and_telefone_validation (s : jsstring) :
  (schema_cep (VString s) = [] ↔ length (remove_underscores (trim s)) = 9%nat)
  ∧ (length (remove_underscores (trim s)) ≠ 9%nat →
     schema_cep (VString s) = [Zod.custom Msg.cep_invalido])
  ∧ (schema_telefone (VString s) = [] ↔ length (remove_underscores (trim s)) = 17%nat)
  ∧ (length (remove_underscores (trim s)) ≠ 17%nat →
     schema_telefone (VString s) = [Zod.custom Msg.telefone_invalido])
  ∧ (mask_shaped (parse_mask cep_mask) s = true →
     (schema_cep (VString s) = [] ↔ spec_cep_valid s = true))
  ∧ (mask_shaped (parse_mask telefone_mask) s = true →
     (schema_telefone (VString s) = [] ↔ spec_telefone_valid s = true)).
Proof.
  split_and!.
  - apply schema_cep_passes.
  - apply schema_cep_fails.
  - apply schema_telefone_passes.
  - apply schema_telefone_fails.
  - intros Hs. rewrite schema_cep_passes. unfold spec_cep_valid.
    rewrite Nat.eqb_eq.
    by apply (masked_length_iff_digits (lit "-") (parse_mask cep_mask) s Digit Digit).
  - intros Hs. rewrite schema_telefone_passes. unfold spec_telefone_valid.
    rewrite Nat.eqb_eq.
    by apply (masked_length_iff_digits (lit "+ -") (parse_mask telefone_mask) s
                (Literal 43) Digit).
Qed.

Lemma cep_and_telefone_validation_witness :
  (schema_cep (VString (lit "01234-56_")) = [Zod.custom Msg.cep_invalido])
  ∧ (schema_telefone (VString (lit "+55 11 9999_-____"))
     = [Zod.custom Msg.telefone_invalido])
  ∧ (schema_cep (VString (lit "01234-567")) = [] ↔ spec_cep_valid (lit "01234-567") = true)
  ∧ (schema_telefone (VString (lit "+55 11 99999-9999")) = []
     ↔ spec_telefone_valid (lit "+55 11 99999-9999") = true).
Proof.
  destruct (cep_and_telefone_validation (lit "01234-56_")) as (_ & Hcep & _).
  destruct (cep_and_telefone_validation (lit "+55 11 9999_-____"))
    as (_ & _ & _ & Htelefone & _).
  destruct (cep_and_telefone_validation (lit "01234-567")) as (_ & _ & _ & _ & Hmc & _).
  destruct (cep_and_telefone_validation (lit "+55 11 99999-9999"))
    as (_ & _ & _ & _ & _ & Hmt).
  split_and!.
  - apply Hcep. vm_compute. lia.
  - apply Htelefone. vm_compute. lia.
  - apply Hmc. reflexivity.
  - apply Hmt. reflexivity.
Defined.

(** C1, as the specification words it, fails: a postal code of eight
    digits without its separator is refused, although exactly eight digits
    are left once placeholders and mask literals are removed. *)
Lemma cep_eight_digits_refused :
  ¬ (schema_cep (VString (lit "01234567")) = []
     ↔ spec_cep_valid (lit "01234567") = true).
Proof. intros [_ H]. specialize (H eq_refl). discriminate H. Qed.

(** In the other direction, nine digits without a separator pass. *)
Lemma cep_nine_digits_pass :
  schema_cep (VString (lit "123456789")) = []
  ∧ spec_cep_valid (lit "123456789") = false.
Proof. split; reflexivity. Qed.

(** C10, as amended. The two rules look at nothing but the number of
    characters left after trimming and removing underscores: inputs with the
    same count fare the same, whatever their characters and wherever their
    separators. So every underscore-free string that is 9 characters long
    once trimmed, such as [abcdefghi], passes the postal-code rule, and every
    underscore-free string that is 17 characters long once trimmed passes the
    phone rule. *)
Theorem validation_counts_characters_only (s s' : jsstring) :
  (length (remove_underscores (trim s)) = length (remove_underscores (trim s')) →
   schema_cep (VString s) = schema_cep (VString s')
   ∧ schema_telefone (VString s) = schema_telefone (VString s'))
  ∧ (underscore ∉ s → length (trim s) = 9%nat → schema_cep (VString s) = [])
  ∧ (underscore ∉ s → length (trim s) = 17%nat → schema_telefone (VString s) = [])
  ∧ schema_cep (VString (lit "abcdefghi")) = [].
Proof.
  split_and!.
  - intros Hlen. unfold schema_cep, schema_telefone. rewrite !refined_string.
    unfold cep_check, telefone_check. by rewrite Hlen.
  - intros Hs Hlen. apply schema_cep_passes. by rewrite remove_underscores_trim.
  - intros Hs Hlen. apply schema_telefone_passes. by rewrite remove_underscores_trim.
  - reflexivity.
Qed.

Lemma validation_counts_characters_only_witness :
  schema_cep (VString (lit "abcdefgh")) = schema_cep (VString (lit "  01234-56_ "))
  ∧ schema_cep (VString (lit "12-34-567")) = []
  ∧ schema_telefone (VString (lit "abcdefghijklmnopq")) = [].
Proof.
  destruct (validation_counts_characters_only (lit "abcdefgh") (lit "  01234-56_ "))
    as (Hsame & _).
  destruct (validation_counts_characters_only (lit "12-34-567") [])
    as (_ & Hcep & _).
  destruct (validation_counts_characters_only (lit "abcdefghijklmnopq") [])
    as (_ & _ & Htelefone & _).
  split_and!.
  - apply Hsame. reflexivity.
  - apply Hcep; [by apply no_underscore | reflexivity].
  - apply Htelefone; [by apply no_underscore | reflexivity].
Defined.

(** C10, as worded, fails: a string of nine characters without an underscore
    is refused when one of the nine is a leading space, which [trim] drops
    before the count. *)
Lemma cep_nine_characters_refused :
  length (lit " 1234-567") = 9%nat
  ∧ (underscore ∉ lit " 1234-567")
  ∧ schema_cep (VString (lit " 1234-567")) ≠ [].
Proof. split_and!; [reflexivity | by apply no_underscore | discriminate]. Qed.

(** ** Running the handlers *)

#[local] Arguments lit : simpl never.

Section Handlers.

Context (w : world).

Implicit Types (st : state) (formData : gmap string value) (e : error).

Lemma log_perform {X} (op : effect X) st :
  log (perform op w st).1 = log st ++ [Call op].
Proof. by destruct op. Qed.

Lemma log_exec {A} (p : prog A) st : log (exec p w st) = log st ++ calls p w st.
Proof.
  unfold exec. revert st. induction p as [a|e|X op k IH]; intros st; simpl.
  - by rewrite app_nil_r.
  - by rewrite app_nil_r.
  - pose proof (log_perform op st) as Hop.
    destruct (perform op w st) as [st' x]. simpl in Hop.
    by rewrite IH, Hop, <- app_assoc.
Qed.

(** C2. Whatever error the update handler or the delete handler catches, the
    one toast it shows is the same for both: titled with the error's own
    message and described by the remediation hint when the error is an
    [AppError], titled and described by the generic copy otherwise. *)
Theorem error_toast_classification st formData e :
  (put_answer w (log st) (lit "/clientes") formData = Rejected e →
   toasts (exec (handleAtualizarUsuario formData) w st) = toasts st ++ [classify e])
  ∧ (confirm_answer w (log st) Msg.confirmar = true →
     delete_answer w (log st ++ [Call (window_confirm Msg.confirmar)]) (lit "/clientes")
     = Rejected e →
     toasts (exec handleDeletarConta w st) = toasts st ++ [classify e])
  ∧ toast_title (classify e)
    = (if instanceof_AppError e then error_message e else VString Msg.erro_servidor)
  ∧ toast_description (classify e)
    = (if instanceof_AppError e then VString Msg.verifique else VString Msg.mais_tarde)
  ∧ toast_isError (classify e) = true.
Proof.
  split_and!; try by destruct e.
  - intros Hput. unfold exec, handleAtualizarUsuario. cbn. rewrite Hput. cbn.
    by destruct e.
  - intros Hyes Hdelete. unfold exec, handleDeletarConta. cbn. rewrite Hyes. cbn.
    rewrite Hdelete. cbn. by destruct e.
Qed.

(** C5. When [PUT /clientes] succeeds the handler goes on to issue
    [GET /conta] exactly once, whatever that read answers; when the update
    fails it issues none. *)
Theorem update_reloads_once st formData :
  (∀ u, put_answer w (log st) (lit "/clientes") formData = Resolved u →
     ∃ rest,
       calls (handleAtualizarUsuario formData) w st
       = Call (api_put (lit "/clientes") formData) :: rest
       ∧ count is_get_conta rest = 1%nat)
  ∧ (∀ e, put_answer w (log st) (lit "/clientes") formData = Rejected e →
     count is_get_conta (calls (handleAtualizarUsuario formData) w st) = 0%nat).
Proof.
  split.
  - intros u Hput. eexists. split.
    + unfold handleAtualizarUsuario. cbn. rewrite Hput. cbn. reflexivity.
    + destruct (get_answer w _ _) as [[[c|]]|e]; reflexivity.
  - intros e Hput. unfold handleAtualizarUsuario. cbn. rewrite Hput. reflexivity.
Qed.

(** C9. When [PUT /clientes] fails nothing of the form changes: the
    values, the field errors and the loading and submitting flags are what
    they were, no read is issued, and the handler's calls are the request
    and the error toast. *)
Theorem failed_update_only_toasts st formData e :
  put_answer w (log st) (lit "/clientes") formData = Rejected e →
  let st' := exec (handleAtualizarUsuario formData) w st in
  values st' = values st
  ∧ errors st' = errors st
  ∧ isLoading st' = isLoading st
  ∧ isSubmitting st' = isSubmitting st
  ∧ auth st' = auth st
  ∧ toasts st' = toasts st ++ [classify e]
  ∧ calls (handleAtualizarUsuario formData) w st
    = [ Call (api_put (lit "/clientes") formData);
        Call (showToast (toast_title (classify e)) (toast_description (classify e)) true) ]
  ∧ count is_get_conta (calls (handleAtualizarUsuario formData) w st) = 0%nat.
Proof.
  intros Hput st'. subst st'.
  unfold exec, handleAtualizarUsuario. cbn. rewrite Hput. cbn.
  by destruct e.
Qed.

(** C3, as amended. When [GET /conta] answers with a [cliente], the loader
    stores five values in the form, [nome], [endereco], [cep], [numero] and
    [telefone], each taken from the payload and [numero] passed through
    [String] first, so that a house number sent as a Number is stored as
    text (its decimal digits when it is a safe integer); the sixth field of
    the form, [senha], is left as it was, and the loading flag ends
    cleared. *)
Theorem load_populates_five_fields st data c :
  get_answer w (log st ++ [Call (setIsLoading true)]) (lit "/conta") = Resolved data →
  cliente data = Some c →
  let st' := exec loadAccountData w st in
  values st'
  = <["telefone" := telefone c]>
      (<["numero" := String_ (numero c)]>
         (<["cep" := cep c]>
            (<["endereco" := endereco c]> (<["nome" := nome c]> (values st)))))
  ∧ filter (λ ev, is_setValue ev = true) (calls loadAccountData w st)
    = [ Call (setValue "nome" (nome c)); Call (setValue "endereco" (endereco c));
        Call (setValue "cep" (cep c)); Call (setValue "numero" (String_ (numero c)));
        Call (setValue "telefone" (telefone c)) ]
  ∧ count is_setValue (calls loadAccountData w st) = 5%nat
  ∧ values st' !! "senha" = values st !! "senha"
  ∧ (∀ n, numero c = VNumber n → number_in_range n →
       values st' !! "numero" = Some (VString (decimal n)))
  ∧ isLoading st' = false.
Proof.
  intros Hget Hc st'. subst st'.
  unfold exec, loadAccountData. cbn. rewrite Hget. cbn.
  unfold get_cliente. rewrite Hc. cbn.
  split_and!; try reflexivity.
  - by rewrite !lookup_insert_ne.
  - intros n Hn _. rewrite lookup_insert_ne, lookup_insert_eq by done.
    by rewrite Hn.
Qed.

(** C6. When the user confirms and [DELETE /clientes] succeeds the handler
    calls [logout] exactly once; after it the session is logged out and the
    page offers no action of the form. When the request fails, or the user
    declines, [logout] is not called and the session is as it was; a
    declined confirmation sends no request at all. *)
Theorem delete_logs_out_once st :
  let asked := log st ++ [Call (window_confirm Msg.confirmar)] in
  let st' := exec handleDeletarConta w st in
  (∀ u, confirm_answer w (log st) Msg.confirmar = true →
     delete_answer w asked (lit "/clientes") = Resolved u →
     count is_logout (calls handleDeletarConta w st) = 1%nat
     ∧ auth st' = LoggedOut
     ∧ ∀ a, possible (App st') a = false)
  ∧ (∀ e, confirm_answer w (log st) Msg.confirmar = true →
     delete_answer w asked (lit "/clientes") = Rejected e →
     count is_logout (calls handleDeletarConta w st) = 0%nat
     ∧ auth st' = auth st)
  ∧ (confirm_answer w (log st) Msg.confirmar = false →
     calls handleDeletarConta w st = [Call (window_confirm Msg.confirmar)]
     ∧ count is_logout (calls handleDeletarConta w st) = 0%nat
     ∧ auth st' = auth st).
Proof.
  intros asked st'. subst asked st'. unfold exec, handleDeletarConta.
  split_and!.
  - intros u Hyes Hdelete. cbn. rewrite Hyes. cbn. rewrite Hdelete. cbn.
    by split_and!.
  - intros e Hyes Hdelete. cbn. rewrite Hyes. cbn. rewrite Hdelete. cbn.
    by split_and!.
  - intros Hno. cbn. rewrite Hno. cbn. by split_and!.
Qed.

End Handlers.

Lemma error_toast_classification_witness :
  toasts (exec (handleAtualizarUsuario Sample.formData)
            (Sample.failing Sample.app_error) Sample.ready)
  = [classify Sample.app_error]
  ∧ toasts (exec handleDeletarConta (Sample.failing Sample.network_error) Sample.ready)
    = [classify Sample.network_error].
Proof.
  destruct (error_toast_classification (Sample.failing Sample.app_error)
              Sample.ready Sample.formData Sample.app_error) as (Hput & _).
  destruct (error_toast_classification (Sample.failing Sample.network_error)
              Sample.ready Sample.formData Sample.network_error) as (_ & Hdelete & _).
  split; [apply Hput | apply Hdelete]; reflexivity.
Defined.

Lemma update_reloads_once_witness :
  (∃ rest,
     calls (handleAtualizarUsuario Sample.formData) Sample.all_ok Sample.ready
     = Call (api_put (lit "/clientes") Sample.formData) :: rest
     ∧ count is_get_conta rest = 1%nat)
  ∧ count is_get_conta
      (calls (handleAtualizarUsuario Sample.formData)
         (Sample.failing Sample.network_error) Sample.ready) = 0%nat.
Proof.
  destruct (update_reloads_once Sample.all_ok Sample.ready Sample.formData)
    as (Hok & _).
  destruct (update_reloads_once (Sample.failing Sample.network_error)
              Sample.ready Sample.formData) as (_ & Hfail).
  split; [apply (Hok tt) | apply (Hfail Sample.network_error)]; reflexivity.
Defined.

Lemma failed_update_only_toasts_witness :
  values (exec (handleAtualizarUsuario Sample.formData)
            (Sample.failing Sample.app_error) Sample.ready)
  = values Sample.ready.
Proof.
  apply (failed_update_only_toasts (Sample.failing Sample.app_error)
           Sample.ready Sample.formData Sample.app_error).
  reflexivity.
Defined.

Lemma load_populates_five_fields_witness :
  values (exec loadAccountData Sample.all_ok initial) !! "numero"%string
  = Some (VString (decimal 42)).
Proof.
  destruct (load_populates_five_fields Sample.all_ok initial
              {| cliente := Some Sample.cliente_ana |} Sample.cliente_ana)
    as (_ & _ & _ & _ & Hnumero & _); [reflexivity..|].
  apply Hnumero; [reflexivity|]. unfold number_in_range. simpl. lia.
Defined.

(** C3, as worded, fails: after a successful load only five of the six
    fields of the form hold a value; [senha] was never set. *)
Lemma load_leaves_senha_unset :
  count is_setValue (calls loadAccountData Sample.all_ok initial) ≠ 6%nat
  ∧ values (exec loadAccountData Sample.all_ok initial) !! "senha"%string = None
  ∧ ¬ Forall (λ field, is_Some (values (exec loadAccountData Sample.all_ok initial) !! field))
        form_fields.
Proof.
  split_and!.
  - vm_compute. lia.
  - vm_compute. reflexivity.
  - rewrite Forall_forall. intros Hall.
    destruct (Hall "senha"%string) as [v Hv].
    + unfold form_fields. set_solver.
    + vm_compute in Hv. discriminate Hv.
Qed.

Lemma delete_logs_out_once_witness :
  (count is_logout (calls handleDeletarConta Sample.all_ok Sample.ready) = 1%nat
   ∧ auth (exec handleDeletarConta Sample.all_ok Sample.ready) = LoggedOut
   ∧ ∀ a, possible (App (exec handleDeletarConta Sample.all_ok Sample.ready)) a = false)
  ∧ count is_logout
      (calls handleDeletarConta (Sample.failing Sample.app_error) Sample.ready) = 0%nat
  ∧ calls handleDeletarConta Sample.declining Sample.ready
    = [Call (window_confirm Msg.confirmar)].
Proof.
  destruct (delete_logs_out_once Sample.all_ok Sample.ready) as (Hok & _).
  destruct (delete_logs_out_once (Sample.failing Sample.app_error) Sample.ready)
    as (_ & Hfail & _).
  destruct (delete_logs_out_once Sample.declining Sample.ready) as (_ & _ & Hno).
  split_and!.
  - apply (Hok tt); reflexivity.
  - apply (Hok tt); reflexivity.
  - apply (Hok tt); reflexivity.
  - apply (Hfail Sample.app_error); reflexivity.
  - apply Hno; reflexivity.
Defined.

(** ** The rendered form *)

(** C8. In every state in which a submit is in flight the form offers no
    way to submit: either the loading placeholder is shown in its place, or
    the form is shown and its submit button, [Alterar Dados], is disabled. *)
Theorem submit_disabled_while_submitting (st : state) :
  isSubmitting st = true →
  can_submit (UpdateForm st) = false
  ∧ possible (App st) Submit = false
  ∧ (isLoading st = false →
     ∃ inputs submit ToastComponents delete,
       UpdateForm st = Section_ inputs submit ToastComponents delete
       ∧ titulo submit = lit "Alterar Dados"
       ∧ disabled submit = true).
Proof.
  intros Hsub. unfold App, UpdateForm.
  destruct (isLoading st) eqn:Hload, (auth st); simpl; rewrite ?Hsub;
    split_and!; try done.
  all: intros _; by repeat eexists.
Qed.

Lemma submit_disabled_while_submitting_witness :
  can_submit (UpdateForm Sample.submitting) = false.
Proof. apply (submit_disabled_while_submitting Sample.submitting). reflexivity. Defined.

(** * Further properties *)

(** ** [substr] and the card display on any input *)

Lemma substr_take_drop (s : jsstring) (a b : nat) :
  substr s (Z.of_nat a) (Z.of_nat b) = take b (drop a s).
Proof.
  unfold substr. cbv zeta.
  destruct (Z.ltb_spec (Z.of_nat a) 0) as [Hneg|_]; [lia|].
  set (size := length s).
  replace (Z.to_nat (Z.of_nat a `min` Z.of_nat size)) with (a `min` size)%nat by lia.
  replace (Z.to_nat _)
    with (((a `min` size) + (b `min` size)) `min` size - (a `min` size))%nat by lia.
  destruct (decide (a ≤ size)%nat) as [Hle|Hgt].
  - rewrite (Nat.min_l a) by done.
    destruct (decide (b ≤ size - a)%nat) as [Hb|Hb].
    + f_equal. lia.
    + rewrite !take_ge; [done | rewrite length_drop; lia | rewrite length_drop; lia].
  - rewrite (Nat.min_r a) by lia.
    rewrite !drop_ge by lia. by rewrite !take_nil.
Qed.

Lemma cardNumberText_groups (n : jsstring) :
  cardNumberText n
  = take 4 n ++ space ++ take 4 (drop 4 n) ++ space ++
    take 4 (drop 8 n) ++ space ++ take 4 (drop 12 n).
Proof.
  unfold cardNumberText.
  change (substr n 0 4) with (substr n (Z.of_nat 0) (Z.of_nat 4)).
  change (substr n 4 4) with (substr n (Z.of_nat 4) (Z.of_nat 4)).
  change (substr n 8 4) with (substr n (Z.of_nat 8) (Z.of_nat 4)).
  change (substr n 12 4) with (substr n (Z.of_nat 12) (Z.of_nat 4)).
  by rewrite !substr_take_drop.
Qed.

Lemma take_16_groups (n : jsstring) :
  take 4 n ++ take 4 (drop 4 n) ++ take 4 (drop 8 n) ++ take 4 (drop 12 n)
  = take 16 n.
Proof.
  rewrite !app_assoc.
  rewrite (take_take_drop n 4 4). change (4 + 4)%nat with 8%nat.
  rewrite (take_take_drop n 8 4). change (8 + 4)%nat with 12%nat.
  by rewrite (take_take_drop n 12 4).
Qed.

(** X1. Whatever the card number, the text shown is its characters 0-3,
    a space, its characters 4-7, a space, its characters 8-11, a space and
    its characters 12-15, a group being shorter or empty where the number
    ends early: it is [min (length n) 16 + 3] characters long, so an empty
    number shows three spaces, and characters past the sixteenth are never
    shown. *)
Theorem card_number_any_input (n : jsstring) :
  cardNumberText n
  = take 4 n ++ [32%N] ++ take 4 (drop 4 n) ++ [32%N] ++
    take 4 (drop 8 n) ++ [32%N] ++ take 4 (drop 12 n)
  ∧ length (cardNumberText n) = (length n `min` 16 + 3)%nat
  ∧ cardNumberText n = cardNumberText (take 16 n)
  ∧ cardNumberText [] = space ++ space ++ space
  ∧ count_occ N.eq_dec (cardNumberText n) 32%N
    = (count_occ N.eq_dec (take 16 n) 32%N + 3)%nat.
Proof.
  split_and!.
  - apply cardNumberText_groups.
  - rewrite cardNumberText_groups. rewrite !length_app, !length_take, !length_drop.
    change (length space) with 1%nat. lia.
  - rewrite !cardNumberText_groups.
    rewrite !(take_drop_commute (take 16 n)), !take_take, !take_drop_commute.
    reflexivity.
  - reflexivity.
  - rewrite cardNumberText_groups, !count_occ_app.
    change (count_occ N.eq_dec space 32%N) with 1%nat.
    rewrite <- (take_16_groups n), !count_occ_app. lia.
Qed.

(** X2. Taking the spaces out of the text shown gives back the first sixteen
    characters of a card number that has no space of its own; for a number
    of at most sixteen characters, the number itself. *)
Theorem card_number_round_trip (n : jsstring) :
  32%N ∉ n →
  filter (λ c, c ≠ 32%N) (cardNumberText n) = take 16 n
  ∧ ((length n ≤ 16)%nat → filter (λ c, c ≠ 32%N) (cardNumberText n) = n).
Proof.
  intros Hn.
  assert (∀ l : jsstring, 32%N ∉ l → filter (λ c, c ≠ 32%N) l = l) as Hid.
  { intros l Hl. induction l as [|c l IH]; [done|].
    apply not_elem_of_cons in Hl as [Hc Hl].
    rewrite filter_cons_True by done. by rewrite IH. }
  assert (∀ a b, 32%N ∉ take a (drop b n)) as Hsub.
  { intros a b Hin. apply Hn.
    apply (elem_of_sublist (take a (drop b n))); [done|].
    etrans; [apply sublist_take | apply sublist_drop]. }
  assert (filter (λ c, c ≠ 32%N) (cardNumberText n) = take 16 n) as Hall.
  { rewrite cardNumberText_groups, !filter_app.
    change (filter (λ c, c ≠ 32%N) space) with (@nil N).
    rewrite (Hid (take 4 n)) by apply (Hsub 4 0)%nat.
    rewrite !Hid by apply Hsub. simpl. apply take_16_groups. }
  split; [done|]. intros Hlen. by rewrite Hall, take_ge.
Qed.

Lemma card_number_round_trip_witness :
  filter (λ c, c ≠ 32%N) (cardNumberText (lit "411111111111")) = lit "411111111111".
Proof.
  apply (card_number_round_trip (lit "411111111111")).
  - by apply (bool_decide_unpack _).
  - simpl. lia.
Defined.

(** X3. The expiry shown is the window of five characters that starts at
    index 5 of the expiry given: character [i] of it is character [5 + i] of
    the input, a shorter input gives a shorter window and an input of at
    most five characters an empty one; nothing fails. The CVC is shown as
    given. *)
Theorem expiration_window (numeroCartao validadeCartao cvcCartao : jsstring) :
  let shown := expiration (CreditCard numeroCartao validadeCartao cvcCartao) in
  shown = take 5 (drop 5 validadeCartao)
  ∧ length shown = ((length validadeCartao - 5) `min` 5)%nat
  ∧ (∀ i, (i < 5)%nat → shown !! i = validadeCartao !! (5 + i)%nat)
  ∧ ((length validadeCartao ≤ 5)%nat → shown = [])
  ∧ ((10 ≤ length validadeCartao)%nat → length shown = 5%nat)
  ∧ cvv (CreditCard numeroCartao validadeCartao cvcCartao) = cvcCartao.
Proof.
  intros shown.
  assert (shown = take 5 (drop 5 validadeCartao)) as ->.
  { subst shown. simpl.
    change (substr validadeCartao 5 5)
      with (substr validadeCartao (Z.of_nat 5) (Z.of_nat 5)).
    apply substr_take_drop. }
  split_and!.
  - done.
  - rewrite length_take, length_drop. lia.
  - intros i Hi. by rewrite lookup_take_lt, lookup_drop.
  - intros Hlen. by rewrite drop_ge.
  - intros Hlen. rewrite length_take, length_drop. lia.
  - done.
Qed.

Lemma expiration_window_witness :
  expiration (CreditCard (lit "4111111111111111") (lit "2025-12/30") (lit "123"))
  !! 0%nat = Some 49%N
  ∧ expiration (CreditCard [] (lit "12/30") []) = []
  ∧ length (expiration (CreditCard [] (lit "2025-12/30-01") [])) = 5%nat.
Proof.
  destruct (expiration_window (lit "4111111111111111") (lit "2025-12/30") (lit "123"))
    as (_ & _ & Hat & _).
  destruct (expiration_window [] (lit "12/30") []) as (_ & _ & _ & Hshort & _).
  destruct (expiration_window [] (lit "2025-12/30-01") []) as (_ & _ & _ & _ & Hlong & _).
  split_and!.
  - rewrite (Hat 0%nat) by lia. reflexivity.
  - apply Hshort. simpl. lia.
  - apply Hlong. simpl. lia.
Defined.

(** ** White space around an input *)

Section Trim.

Implicit Types (s l r : jsstring) (c : N).

Lemma trimStart_white l s : all_white_space l → trimStart (l ++ s) = trimStart s.
Proof.
  induction 1 as [|c l Hc _ IH]; [done|]. simpl. by rewrite Hc.
Qed.

Lemma trimStart_nil_iff s : trimStart s = [] ↔ all_white_space s.
Proof.
  unfold all_white_space. induction s as [|c s IH]; simpl.
  - split; [constructor | done].
  - destruct (is_white_space c) eqn:Hc.
    + rewrite IH. split; [by constructor | by inversion 1].
    + split; [done | inversion 1; congruence].
Qed.

Lemma trimStart_head c s s' : trimStart s = c :: s' → is_white_space c = false.
Proof.
  induction s as [|d s IH]; simpl; [done|].
  destruct (is_white_space d) eqn:Hd; [done | congruence].
Qed.

Lemma trimStart_app s r :
  trimStart s ≠ [] → trimStart (s ++ r) = trimStart s ++ r.
Proof.
  induction s as [|c s IH]; simpl; [done|].
  by destruct (is_white_space c).
Qed.

Lemma trimEnd_white s r : all_white_space r → trimEnd (s ++ r) = trimEnd s.
Proof.
  intros Hr. unfold trimEnd. rewrite reverse_app, trimStart_white; [done|].
  unfold all_white_space in *. by rewrite Forall_reverse.
Qed.

Lemma trimEnd_nil_iff s : trimEnd s = [] ↔ all_white_space s.
Proof.
  unfold trimEnd. split.
  - intros H. apply (f_equal reverse) in H. rewrite reverse_involutive in H.
    change (reverse []) with (@nil N) in H.
    apply trimStart_nil_iff in H. unfold all_white_space in *.
    by rewrite Forall_reverse in H.
  - intros H. unfold all_white_space in H. rewrite <- Forall_reverse in H.
    apply trimStart_nil_iff in H. by rewrite H.
Qed.

Lemma trim_nil_iff s : trim s = [] ↔ all_white_space s.
Proof.
  unfold trim. rewrite trimEnd_nil_iff. split.
  - intros H. destruct (trimStart s) as [|c s'] eqn:Hs.
    + by apply trimStart_nil_iff.
    + apply trimStart_head in Hs. inversion H; congruence.
  - intros H. apply trimStart_nil_iff in H. rewrite H. constructor.
Qed.

Lemma trim_surrounded l s r :
  all_white_space l → all_white_space r → trim (l ++ s ++ r) = trim s.
Proof.
  intros Hl Hr. unfold trim. rewrite trimStart_white by done.
  destruct (trimStart s) as [|c s'] eqn:Hs.
  - apply trimStart_nil_iff in Hs.
    assert (trimStart (s ++ r) = []) as ->; [|done].
    apply trimStart_nil_iff. by apply Forall_app.
  - rewrite trimStart_app by (by rewrite Hs). rewrite Hs. by apply trimEnd_white.
Qed.

End Trim.

(** ** The schema, field by field *)

Section Fields.

Implicit Types (s l r : jsstring) (c : N) (v : value).

Lemma visible_iff_not_white s :
  Exists (λ c, is_white_space c = false) s ↔ ¬ all_white_space s.
Proof.
  unfold all_white_space. induction s as [|c s IH].
  - split; [by inversion 1 | intros H; destruct H; constructor].
  - rewrite Exists_cons, IH. destruct (is_white_space c) eqn:Hc.
    + split.
      * intros [?|Hs]; [done|]. by inversion 1.
      * intros Hs. right. intros Hall. apply Hs. by constructor.
    + split; [|by left]. intros _. inversion 1; congruence.
Qed.

Lemma nome_check_visible s :
  nome_check s = true ↔ Exists (λ c, is_white_space c = false) s.
Proof.
  unfold nome_check. rewrite visible_iff_not_white, <- trim_nil_iff.
  rewrite negb_true_iff, Nat.eqb_neq. by destruct (trim s).
Qed.

(** X4. A name passes exactly when it has a character that is not white
    space; an empty name or one of white space only is refused with the
    message of the name field, and an absent name passes. *)
Theorem nome_needs_a_visible_character s :
  (schema_nome (VString s) = [] ↔ Exists (λ c, is_white_space c = false) s)
  ∧ (all_white_space s → schema_nome (VString s) = [Zod.custom Msg.nome_invalido])
  ∧ schema_nome (VString []) = [Zod.custom Msg.nome_invalido]
  ∧ schema_nome VUndefined = [].
Proof.
  unfold schema_nome. rewrite refined_string. split_and!; try reflexivity.
  - rewrite <- nome_check_visible. by destruct (nome_check s).
  - intros Hs. destruct (nome_check s) eqn:Hn; [|done].
    apply nome_check_visible, visible_iff_not_white in Hn. done.
Qed.

Lemma nome_needs_a_visible_character_witness :
  schema_nome (VString (lit "   ")) = [Zod.custom Msg.nome_invalido].
Proof.
  destruct (nome_needs_a_visible_character (lit "   ")) as (_ & Hwhite & _).
  apply Hwhite. repeat constructor.
Defined.

(** X5. White space before and after a name, a postal code or a phone does
    not change the verdict of its rule. *)
Theorem surrounding_white_space_ignored l s r :
  all_white_space l → all_white_space r →
  schema_nome (VString (l ++ s ++ r)) = schema_nome (VString s)
  ∧ schema_cep (VString (l ++ s ++ r)) = schema_cep (VString s)
  ∧ schema_telefone (VString (l ++ s ++ r)) = schema_telefone (VString s).
Proof.
  intros Hl Hr. unfold schema_nome, schema_cep, schema_telefone.
  rewrite !refined_string. unfold nome_check, cep_check, telefone_check.
  by rewrite trim_surrounded.
Qed.

Lemma surrounding_white_space_ignored_witness :
  schema_cep (VString (lit "  " ++ lit "01234-567" ++ lit " "))
  = schema_cep (VString (lit "01234-567")).
Proof.
  destruct (surrounding_white_space_ignored (lit "  ") (lit "01234-567") (lit " "))
    as (_ & Hcep & _); [repeat constructor..|].
  exact Hcep.
Defined.

Lemma unfilled_zero_iff s : unfilled s = 0%nat ↔ underscore ∉ s.
Proof.
  unfold unfilled. induction s as [|c s IH].
  - split; [intros _; apply not_elem_of_nil | done].
  - rewrite not_elem_of_cons. destruct (decide (c = underscore)) as [->|Hc].
    + rewrite filter_cons_True by done. simpl. split; [done | by intros [Hne _]].
    + rewrite filter_cons_False by done. rewrite IH. split; [by split | by intros [_ Hs]].
Qed.

Lemma masked_passes_iff_filled m s i j :
  head m = Some i → last m = Some j → visible i = true → visible j = true →
  mask_shaped m s = true →
  length (remove_underscores (trim s)) = length m ↔ underscore ∉ s.
Proof.
  intros Hi Hj Hvi Hvj Hs. rewrite (mask_shaped_trim m s i j) by done.
  pose proof (remove_underscores_length s) as Hlen.
  rewrite (mask_shaped_length m s Hs) in Hlen.
  rewrite <- unfilled_zero_iff. lia.
Qed.

(** X6. An input in the shape of its mask passes exactly when no position
    still shows the placeholder; a postal code or a phone with a placeholder
    left is refused with the message of its field. *)
Theorem masked_input_passes_iff_filled s :
  (mask_shaped (parse_mask cep_mask) s = true →
   (schema_cep (VString s) = [] ↔ underscore ∉ s)
   ∧ (underscore ∈ s → schema_cep (VString s) = [Zod.custom Msg.cep_invalido]))
  ∧ (mask_shaped (parse_mask telefone_mask) s = true →
     (schema_telefone (VString s) = [] ↔ underscore ∉ s)
     ∧ (underscore ∈ s →
        schema_telefone (VString s) = [Zod.custom Msg.telefone_invalido])).
Proof.
  split; intros Hs.
  - pose proof (masked_passes_iff_filled (parse_mask cep_mask) s Digit Digit
                  eq_refl eq_refl eq_refl eq_refl Hs) as Hiff.
    change (length (parse_mask cep_mask)) with 9%nat in Hiff.
    split; [by rewrite schema_cep_passes|].
    intros Hu. apply schema_cep_fails. rewrite Hiff. by intros Hn.
  - pose proof (masked_passes_iff_filled (parse_mask telefone_mask) s (Literal 43) Digit
                  eq_refl eq_refl eq_refl eq_refl Hs) as Hiff.
    change (length (parse_mask telefone_mask)) with 17%nat in Hiff.
    split; [by rewrite schema_telefone_passes|].
    intros Hu. apply schema_telefone_fails. rewrite Hiff. by intros Hn.
Qed.

Lemma masked_input_passes_iff_filled_witness :
  schema_telefone (VString (lit "+55 11 9999_-____"))
  = [Zod.custom Msg.telefone_invalido]
  ∧ (schema_cep (VString (lit "01234-567")) = [] ↔ underscore ∉ lit "01234-567").
Proof.
  destruct (masked_input_passes_iff_filled (lit "+55 11 9999_-____")) as (_ & Ht).
  destruct (masked_input_passes_iff_filled (lit "01234-567")) as (Hc & _).
  split.
  - apply Ht; [reflexivity|]. by apply (bool_decide_unpack _).
  - apply Hc. reflexivity.
Defined.

End Fields.

(** ** The schema as a whole *)

Section Schema.

Implicit Types (s : jsstring) (v : value) (o : gmap string value).

Lemma schema_senha_string s :
  schema_senha (VString s)
  = if (8 <=? length s)%nat then [] else [Zod.too_small Msg.senha_curta].
Proof. reflexivity. Qed.

(** X7. The password rule counts characters as they are, white space
    included: a password passes exactly when it has at least eight
    characters, a shorter one is refused with the message of the password
    field, and an absent one passes. *)
Theorem senha_needs_eight_characters s :
  (schema_senha (VString s) = [] ↔ (8 ≤ length s)%nat)
  ∧ ((length s < 8)%nat → schema_senha (VString s) = [Zod.too_small Msg.senha_curta])
  ∧ schema_senha VUndefined = [].
Proof.
  rewrite schema_senha_string.
  destruct (Nat.leb_spec 8 (length s)) as [Hle|Hlt]; split_and!.
  - by split.
  - intros Hlt. lia.
  - reflexivity.
  - split; [discriminate | lia].
  - by intros _.
  - reflexivity.
Qed.

Lemma senha_needs_eight_characters_witness :
  schema_senha (VString (lit "        ")) = []
  ∧ schema_senha (VString (lit "1234567")) = [Zod.too_small Msg.senha_curta].
Proof.
  destruct (senha_needs_eight_characters (lit "        ")) as (Hok & _).
  destruct (senha_needs_eight_characters (lit "1234567")) as (_ & Hshort & _).
  split; [apply Hok | apply Hshort]; simpl; lia.
Defined.

(** X8. A value that is not a string never reaches a rule's own check: a
    number, a boolean or [null] is refused by every field as a wrong type,
    and [undefined] is refused by the two required fields and accepted by
    the four optional ones. *)
Theorem non_strings_are_refused v :
  is_string v = false →
  schema_endereco v = [Zod.invalid_type]
  ∧ schema_numero v = [Zod.invalid_type]
  ∧ (v ≠ VUndefined →
     schema_nome v = [Zod.invalid_type] ∧ schema_cep v = [Zod.invalid_type]
     ∧ schema_telefone v = [Zod.invalid_type] ∧ schema_senha v = [Zod.invalid_type])
  ∧ (v = VUndefined →
     schema_nome v = [] ∧ schema_cep v = [] ∧ schema_telefone v = []
     ∧ schema_senha v = []).
Proof.
  intros Hv. destruct v; try discriminate Hv; split_and!; try done.
  all: intros ->; by split_and!.
Qed.

Lemma non_strings_are_refused_witness :
  schema_cep (VNumber 1234567) = [Zod.invalid_type]
  ∧ schema_numero VUndefined = [Zod.invalid_type].
Proof.
  destruct (non_strings_are_refused (VNumber 1234567)) as (_ & _ & Hopt & _);
    [reflexivity|].
  destruct (non_strings_are_refused VUndefined) as (_ & Hnum & _); [reflexivity|].
  split; [by apply Hopt | exact Hnum].
Defined.

Lemma optional_refined_passes check message v :
  Zod.optional (Zod.refine Zod.string check message) v = []
  ↔ optional_string (λ s, check s = true) v.
Proof.
  unfold optional_string. destruct v as [| |b|n|s].
  - split; [by left | done].
  - split; [done | intros [?|(s & ? & _)]; done].
  - split; [done | intros [?|(s & ? & _)]; done].
  - split; [done | intros [?|(s & ? & _)]; done].
  - change (Zod.optional (Zod.refine Zod.string check message) (VString s))
      with (if check s then [] else [Zod.custom message]).
    destruct (check s) eqn:Hs.
    + split; [intros _; right; by exists s | reflexivity].
    + split; [discriminate | intros [?|(s' & [= <-] & ?)]; congruence].
Qed.

Lemma optional_string_impl (P Q : jsstring → Prop) v :
  (∀ s, P s ↔ Q s) → optional_string P v ↔ optional_string Q v.
Proof.
  intros HPQ. unfold optional_string.
  split; (intros [?|(s & ? & ?)]; [by left | right; exists s; split; [done|by apply HPQ]]).
Qed.

Lemma schema_senha_passes v :
  schema_senha v = [] ↔ optional_string (λ s, (8 ≤ length s)%nat) v.
Proof.
  unfold optional_string. destruct v as [| |b|n|s].
  - split; [by left | done].
  - split; [done | intros [?|(s & ? & _)]; done].
  - split; [done | intros [?|(s & ? & _)]; done].
  - split; [done | intros [?|(s & ? & _)]; done].
  - rewrite schema_senha_string.
    destruct (Nat.leb_spec 8 (length s)) as [Hle|Hlt].
    + split; [intros _; right; by exists s | done].
    + split; [discriminate | intros [?|(s' & [= <-] & ?)]; [done | lia]].
Qed.

Lemma map_nil_iff {A B} (f : A → B) (l : list A) : map f l = [] ↔ l = [].
Proof. by destruct l. Qed.

Lemma string_passes v : Zod.string v = [] ↔ is_string v = true.
Proof. by destruct v. Qed.

(** X9. A form passes the schema exactly when the address and the house
    number are strings and each of the name, the postal code, the phone and
    the password is either absent or a string that satisfies its rule.
    A missing address or house number is reported under its key. *)
Theorem schema_passes_iff o :
  (schema o = [] ↔
     optional_string (λ s, ¬ all_white_space s) (field o "nome")
     ∧ is_string (field o "endereco") = true
     ∧ optional_string (λ s, length (remove_underscores (trim s)) = 9%nat) (field o "cep")
     ∧ is_string (field o "numero") = true
     ∧ optional_string (λ s, length (remove_underscores (trim s)) = 17%nat)
         (field o "telefone")
     ∧ optional_string (λ s, (8 ≤ length s)%nat) (field o "senha"))
  ∧ (o !! "endereco" = None → ("endereco"%string, Zod.invalid_type) ∈ schema o)
  ∧ (o !! "numero" = None → ("numero"%string, Zod.invalid_type) ∈ schema o).
Proof.
  split_and!.
  - unfold schema, Zod.object. simpl. fold (field o).
    rewrite !app_nil. rewrite !map_nil_iff.
    unfold schema_nome, schema_cep, schema_telefone, schema_endereco, schema_numero.
    rewrite !optional_refined_passes, !string_passes, schema_senha_passes.
    rewrite (optional_string_impl (λ s, nome_check s = true) (λ s, ¬ all_white_space s))
      by (intros s; by rewrite nome_check_visible, visible_iff_not_white).
    rewrite (optional_string_impl (λ s, cep_check s = true)
               (λ s, length (remove_underscores (trim s)) = 9%nat))
      by (intros s; unfold cep_check; by rewrite Nat.eqb_eq).
    rewrite (optional_string_impl (λ s, telefone_check s = true)
               (λ s, length (remove_underscores (trim s)) = 17%nat))
      by (intros s; unfold telefone_check; by rewrite Nat.eqb_eq).
    unfold field. split; [intros (?&?&?&?&?&?&_) | intros (?&?&?&?&?&?)]; by split_and!.
  - intros Ho. unfold schema, Zod.object. simpl. rewrite Ho. simpl.
    apply elem_of_app. right. apply elem_of_cons. by left.
  - intros Ho. unfold schema, Zod.object. simpl. rewrite Ho. simpl.
    do 3 (apply elem_of_app; right). apply elem_of_cons. by left.
Qed.

Lemma schema_passes_iff_witness :
  schema {[ "endereco" := VString (lit "Rua A"); "numero" := VString (lit "7") ]}%string = []
  ∧ ("numero"%string, Zod.invalid_type)
    ∈ schema {[ "endereco" := VString (lit "Rua A") ]}%string.
Proof.
  destruct (schema_passes_iff
              {[ "endereco" := VString (lit "Rua A"); "numero" := VString (lit "7") ]}%string)
    as (Hok & _).
  destruct (schema_passes_iff {[ "endereco" := VString (lit "Rua A") ]}%string)
    as (_ & _ & Hmissing).
  split.
  - apply Hok. split_and!; try reflexivity; by left.
  - apply Hmissing. reflexivity.
Defined.

End Schema.

Section Reports.

Implicit Types (v : value) (o : gmap string value).

Lemma optional_refined_at_most_one check message v :
  (length (Zod.optional (Zod.refine Zod.string check message) v) ≤ 1)%nat.
Proof.
  destruct v as [| |b|n|s]; [simpl; lia..|].
  rewrite refined_string. destruct (check s); simpl; lia.
Qed.

Lemma string_at_most_one v : (length (Zod.string v) ≤ 1)%nat.
Proof. destruct v; simpl; lia. Qed.

Lemma senha_at_most_one v : (length (schema_senha v) ≤ 1)%nat.
Proof.
  destruct v as [| |b|n|s]; [simpl; lia..|].
  change (schema_senha (VString s))
    with (if (8 <=? length s)%nat then [] else [Zod.too_small Msg.senha_curta]).
  destruct (8 <=? length s)%nat; simpl; lia.
Qed.

Lemma keys_of_field (key : string) (l : list Zod.issue) :
  (length l ≤ 1)%nat → map fst (map (pair key) l) `sublist_of` [key].
Proof.
  destruct l as [|i [|j l]]; simpl; intros Hl; [apply sublist_nil_l|done|lia].
Qed.

(** X10. The schema reports at most one issue per field, and reports the
    fields in the order [nome], [endereco], [cep], [numero], [telefone],
    [senha]: no key comes twice and there are never more than six issues. *)
Theorem schema_reports_each_field_once o :
  map fst (schema o) `sublist_of` schema_keys
  ∧ NoDup (map fst (schema o))
  ∧ (length (schema o) ≤ 6)%nat.
Proof.
  assert (map fst (schema o) `sublist_of` schema_keys) as Hsub.
  { unfold schema, Zod.object. simpl. rewrite !map_app. simpl.
    change schema_keys
      with (["nome"%string] ++ ["endereco"%string] ++ ["cep"%string]
            ++ ["numero"%string] ++ ["telefone"%string] ++ ["senha"%string] ++ [])%list.
    repeat apply sublist_app; try apply sublist_nil_l; apply keys_of_field.
    - apply optional_refined_at_most_one.
    - apply string_at_most_one.
    - apply optional_refined_at_most_one.
    - apply string_at_most_one.
    - apply optional_refined_at_most_one.
    - apply senha_at_most_one. }
  split_and!; [done | |].
  - eapply sublist_NoDup; [|exact Hsub]. by apply (bool_decide_unpack _).
  - apply sublist_length in Hsub. by rewrite length_map in Hsub.
Qed.

(** X11. Keys that the schema does not name play no part: adding, changing
    or removing one leaves the verdict as it was. *)
Theorem unknown_keys_are_ignored o (key : string) v :
  key ∉ schema_keys →
  schema (<[key := v]> o) = schema o ∧ schema (delete key o) = schema o.
Proof.
  intros Hkey. unfold schema_keys in Hkey.
  repeat (apply not_elem_of_cons in Hkey as [? Hkey]).
  unfold schema, Zod.object. simpl.
  by rewrite !lookup_insert_ne, !lookup_delete_ne by done.
Qed.

Lemma unknown_keys_are_ignored_witness :
  schema (<["apelido"%string := VNumber 1]> Sample.formData) = schema Sample.formData.
Proof.
  apply (unknown_keys_are_ignored Sample.formData "apelido"%string (VNumber 1)).
  by apply (bool_decide_unpack _).
Defined.

End Reports.

(** ** More on the loader and the handlers *)

Section MoreHandlers.

Context (w : world).

Implicit Types (st : state) (formData : gmap string value) (e : error).

(** X12. When the read fails, or answers without a [cliente], the loader
    sets the loading flag, sends the read, shows the alert [Um erro ocorreu],
    logs the error (the one the read was refused with, or one that is not an
    [AppError] when the [cliente] is missing) and stops: these are all its
    calls. No value of the form is set, no toast is shown, and the loading
    flag stays raised, so the component keeps rendering the loading
    placeholder, on which nothing can be done. *)
Theorem failed_load_stays_loading st :
  let asked := log st ++ [Call (setIsLoading true)] in
  let st' := exec loadAccountData w st in
  (∀ e, get_answer w asked (lit "/conta") = Rejected e →
     calls loadAccountData w st
     = [ Call (setIsLoading true); Call (api_get (lit "/conta"));
         Call (alert Msg.um_erro); Call (console_log e) ]
     ∧ values st' = values st ∧ toasts st' = toasts st ∧ isLoading st' = true
     ∧ UpdateForm st' = Loading
     ∧ ∀ a, possible (AccountPage (UpdateForm st')) a = false)
  ∧ (get_answer w asked (lit "/conta") = Resolved {| cliente := None |} →
     (∃ e, instanceof_AppError e = false
           ∧ calls loadAccountData w st
             = [ Call (setIsLoading true); Call (api_get (lit "/conta"));
                 Call (alert Msg.um_erro); Call (console_log e) ])
     ∧ count is_setValue (calls loadAccountData w st) = 0%nat
     ∧ values st' = values st ∧ toasts st' = toasts st ∧ isLoading st' = true
     ∧ UpdateForm st' = Loading
     ∧ ∀ a, possible (AccountPage (UpdateForm st')) a = false).
Proof.
  intros asked st'. subst asked st'. unfold exec, loadAccountData. split.
  - intros e Hget. cbn. rewrite Hget. cbn. by split_and!.
  - intros Hget. cbn. rewrite Hget. cbn. split_and!; try done.
    eexists. split; [|reflexivity]. reflexivity.
Qed.

(** X13. Neither the loader nor a handler ever lets an error escape:
    whatever the backend and the user answer, each of the three runs to its
    end and returns normally. *)
Theorem nothing_is_thrown st formData :
  (run loadAccountData w st).2 = inl tt
  ∧ (run (handleAtualizarUsuario formData) w st).2 = inl tt
  ∧ (run handleDeletarConta w st).2 = inl tt.
Proof.
  split_and!.
  - unfold loadAccountData. cbn.
    destruct (get_answer w _ _) as [[[c|]]|e]; reflexivity.
  - unfold handleAtualizarUsuario. cbn.
    destruct (put_answer w _ _ _) as [u|e]; cbn; [|reflexivity].
    destruct (get_answer w _ _) as [[[c|]]|e]; reflexivity.
  - unfold handleDeletarConta. cbn.
    destruct (confirm_answer w _ _); cbn; [|reflexivity].
    destruct (delete_answer w _ _) as [u|e]; reflexivity.
Qed.

(** X14. After an update that succeeds and a reload that succeeds, the five
    fields hold what the server sent, not what was submitted; no toast is
    shown and the loading flag ends cleared. *)
Theorem successful_update_shows_server_data st formData data c :
  put_answer w (log st) (lit "/clientes") formData = Resolved tt →
  get_answer w
    ((log st ++ [Call (api_put (lit "/clientes") formData)])
     ++ [Call (setIsLoading true)]) (lit "/conta") = Resolved data →
  cliente data = Some c →
  let st' := exec (handleAtualizarUsuario formData) w st in
  values st'
  = <["telefone" := telefone c]>
      (<["numero" := String_ (numero c)]>
         (<["cep" := cep c]>
            (<["endereco" := endereco c]> (<["nome" := nome c]> (values st)))))
  ∧ field (values st') "nome" = nome c
  ∧ field (values st') "cep" = cep c
  ∧ toasts st' = toasts st
  ∧ isLoading st' = false.
Proof.
  intros Hput Hget Hc st'. subst st'.
  unfold exec, handleAtualizarUsuario. cbn. rewrite Hput. cbn. rewrite Hget. cbn.
  unfold get_cliente. rewrite Hc. cbn.
  split_and!; try reflexivity.
  - unfold field. rewrite !lookup_insert_ne by done. by rewrite lookup_insert_eq.
  - unfold field. rewrite !lookup_insert_ne by done. by rewrite lookup_insert_eq.
Qed.

(** X15. Whatever happens, the update handler begins with one
    [PUT /clientes] that carries the form data as given. After it the
    handler sends no write to any path, so no second [PUT] and no [DELETE];
    the only request it may still send is the one [GET /conta] of the
    reload, sent exactly when the update succeeded. It never logs out, and
    it shows a toast exactly when the update failed. *)
Theorem update_sends_one_put st formData :
  ∃ rest,
    calls (handleAtualizarUsuario formData) w st
    = Call (api_put (lit "/clientes") formData) :: rest
    ∧ count is_write rest = 0%nat
    ∧ count is_put_clientes rest = 0%nat
    ∧ count is_delete_clientes rest = 0%nat
    ∧ count is_request rest = count is_get_conta rest
    ∧ count is_request rest
      = match put_answer w (log st) (lit "/clientes") formData with
        | Resolved _ => 1%nat
        | Rejected _ => 0%nat
        end
    ∧ count is_logout rest = 0%nat
    ∧ count is_showToast rest
      = match put_answer w (log st) (lit "/clientes") formData with
        | Resolved _ => 0%nat
        | Rejected _ => 1%nat
        end.
Proof.
  eexists. split; [unfold handleAtualizarUsuario; cbn; reflexivity|].
  destruct (put_answer w _ _ _) as [u|e]; cbn; [|by split_and!].
  destruct (get_answer w _ _) as [[[c|]]|e]; by split_and!.
Qed.

(** X16. The delete handler always asks for confirmation first, and once;
    it sends [DELETE /clientes] exactly when the answer is yes, and then only
    once. It never reads or updates the account and never touches the values
    of the form or the loading flag, and it shows a toast exactly when the
    request was sent and failed. *)
Theorem delete_asks_first st :
  let st' := exec handleDeletarConta w st in
  let yes := confirm_answer w (log st) Msg.confirmar in
  ∃ rest,
    calls handleDeletarConta w st = Call (window_confirm Msg.confirmar) :: rest
    ∧ count is_confirm rest = 0%nat
    ∧ count is_delete_clientes rest = (if yes then 1 else 0)%nat
    ∧ count is_request rest = (if yes then 1 else 0)%nat
    ∧ count is_setValue rest = 0%nat
    ∧ values st' = values st
    ∧ isLoading st' = isLoading st
    ∧ length (toasts st')
      = (length (toasts st)
         + match yes,
                 delete_answer w (log st ++ [Call (window_confirm Msg.confirmar)])
                   (lit "/clientes") with
           | true, Rejected _ => 1
           | _, _ => 0
           end)%nat.
Proof.
  intros st' yes. subst st' yes. unfold exec.
  eexists. split; [unfold handleDeletarConta; cbn; reflexivity|].
  unfold handleDeletarConta. cbn.
  destruct (confirm_answer w _ _); cbn.
  - destruct (delete_answer w _ _) as [u|e]; cbn; rewrite ?length_app;
      split_and!; try reflexivity; simpl; lia.
  - split_and!; try reflexivity; lia.
Qed.

End MoreHandlers.

Lemma failed_load_stays_loading_witness :
  UpdateForm (mount (Sample2.read_fails Sample.network_error)) = Loading
  ∧ UpdateForm (mount Sample2.no_cliente) = Loading.
Proof.
  destruct (failed_load_stays_loading (Sample2.read_fails Sample.network_error) initial)
    as (Hfail & _).
  destruct (failed_load_stays_loading Sample2.no_cliente initial) as (_ & Hnone).
  split.
  - apply (Hfail Sample.network_error). reflexivity.
  - apply Hnone. reflexivity.
Defined.

Lemma successful_update_shows_server_data_witness :
  field (values (exec (handleAtualizarUsuario Sample.formData) Sample.all_ok Sample.ready))
    "nome"
  = VString (lit "Ana").
Proof.
  destruct (successful_update_shows_server_data Sample.all_ok Sample.ready
              Sample.formData {| cliente := Some Sample.cliente_ana |} Sample.cliente_ana)
    as (_ & Hnome & _); [reflexivity..|].
  exact Hnome.
Defined.

(** ** The house number as text *)

Lemma lit_inj (a b : string) : lit a = lit b → a = b.
Proof.
  unfold lit. intros H.
  rewrite <- (string_of_list_ascii_of_string a), <- (string_of_list_ascii_of_string b).
  f_equal. revert H. generalize (list_ascii_of_string a) (list_ascii_of_string b).
  induction l as [|x l IH]; intros [|y l']; simpl; try discriminate; [done|].
  intros [= Hxy Hl]. f_equal; [|by apply IH].
  by rewrite <- (ascii_N_embedding x), <- (ascii_N_embedding y), Hxy.
Qed.

Lemma to_int_printable (n : Z) :
  Z.to_int n ≠ Decimal.Pos Decimal.Nil ∧ Z.to_int n ≠ Decimal.Neg Decimal.Nil.
Proof.
  destruct n as [|p|p]; simpl; split; try discriminate.
  - intros [= H]. by apply Unsigned.to_uint_nonnil in H.
  - intros [= H]. by apply Unsigned.to_uint_nonnil in H.
Qed.

Lemma digits_of_uint (d : Decimal.uint) :
  Forall (λ c, is_digit c = true) (lit (NilEmpty.string_of_uint d)).
Proof. induction d; simpl; by constructor. Qed.

Lemma digits_of_uint_nilzero (d : Decimal.uint) :
  lit (NilZero.string_of_uint d) ≠ []
  ∧ Forall (λ c, is_digit c = true) (lit (NilZero.string_of_uint d)).
Proof.
  destruct d; (split; [discriminate|]);
    first [by repeat constructor | apply (digits_of_uint (_ _))].
Qed.

Lemma decimal_inj (n m : Z) : decimal n = decimal m → n = m.
Proof.
  unfold decimal. intros H. apply lit_inj in H.
  apply (f_equal NilZero.int_of_string) in H.
  destruct (to_int_printable n), (to_int_printable m).
  rewrite !NilZero.isi in H by done. injection H as H.
  apply (f_equal Z.of_int) in H. by rewrite !DecimalZ.of_to in H.
Qed.

Lemma decimal_nonneg (n : Z) :
  0 ≤ n → decimal n ≠ [] ∧ Forall (λ c, is_digit c = true) (decimal n).
Proof.
  intros Hn. unfold decimal. destruct n as [|p|p]; [| |lia].
  - split; [discriminate | by repeat constructor].
  - apply digits_of_uint_nilzero.
Qed.

(** X17. For house numbers that are safe integers, the text [String] gives
    determines the number: two different numbers never give the same text.
    The text of such a number that is not negative is a non-empty run of
    digits, and the text of a negative one is a minus sign before the text
    of its absolute value. *)
Theorem decimal_text (n m : Z) :
  number_in_range n → number_in_range m →
  (String_ (VNumber n) = String_ (VNumber m) → n = m)
  ∧ (0 ≤ n →
     ∃ s, String_ (VNumber n) = VString s ∧ s ≠ []
          ∧ Forall (λ c, is_digit c = true) s)
  ∧ (n < 0 →
     number_in_range (- n)
     ∧ ∃ s, String_ (VNumber (- n)) = VString s
            ∧ String_ (VNumber n) = VString (45%N :: s)).
Proof.
  intros Hn Hm. split_and!.
  - intros [= H]. by apply decimal_inj.
  - intros Hpos. exists (decimal n). split; [done|]. by apply decimal_nonneg.
  - intros Hneg. split.
    + unfold number_in_range in *. by rewrite Z.abs_opp.
    + exists (decimal (- n)). split; [done|].
      destruct n as [|p|p]; [lia..|]. reflexivity.
Qed.

Lemma decimal_text_witness :
  (String_ (VNumber 1203) = String_ (VNumber 1203) → 1203 = 1203)
  ∧ (∃ s, String_ (VNumber 1203) = VString s ∧ s ≠ []
          ∧ Forall (λ c, is_digit c = true) s)
  ∧ (∃ s, String_ (VNumber 12) = VString s
          ∧ String_ (VNumber (-12)) = VString (45%N :: s)).
Proof.
  assert (number_in_range 1203) as H1203 by (unfold number_in_range; simpl; lia).
  assert (number_in_range (-12)) as H12 by (unfold number_in_range; simpl; lia).
  destruct (decimal_text 1203 1203 H1203 H1203) as (Hinj & Hpos & _).
  destruct (decimal_text (-12) 1203 H12 H1203) as (_ & _ & Hneg).
  split_and!.
  - exact Hinj.
  - apply Hpos. lia.
  - apply Hneg. lia.
Defined.

(** X18. Whatever the server sends as house number, what the loader stores
    for it is a string, so the field always passes its rule afterwards;
    [String] leaves a value that already is a string as it is. The other
    fields are stored as sent: a postal code that arrives as something other
    than a string is refused as a wrong type when the form is checked. *)
Theorem loaded_house_number_is_text (w : world) (st : state) (data : conta) (c : Cliente) :
  get_answer w (log st ++ [Call (setIsLoading true)]) (lit "/conta") = Resolved data →
  cliente data = Some c →
  let st' := exec loadAccountData w st in
  schema_numero (field (values st') "numero") = []
  ∧ String_ (String_ (numero c)) = String_ (numero c)
  ∧ (is_string (numero c) = true → field (values st') "numero" = numero c)
  ∧ (is_string (cep c) = false → cep c ≠ VUndefined →
     schema_cep (field (values st') "cep") = [Zod.invalid_type]).
Proof.
  intros Hget Hc st'. subst st'.
  unfold exec, loadAccountData. cbn. rewrite Hget. cbn.
  unfold get_cliente. rewrite Hc. cbn. unfold field.
  rewrite !(lookup_insert_ne _ "telefone") by done. rewrite lookup_insert_eq.
  rewrite !(lookup_insert_ne _ "numero") by done. rewrite lookup_insert_eq. simpl.
  split_and!; try done.
  - by destruct (numero c).
  - intros Hs Hu. by destruct (cep c).
Qed.

Lemma loaded_house_number_is_text_witness :
  schema_numero (field (values (mount Sample.all_ok)) "numero") = [].
Proof.
  destruct (loaded_house_number_is_text Sample.all_ok initial
              {| cliente := Some Sample.cliente_ana |} Sample.cliente_ana)
    as (Hnumero & _); [reflexivity..|].
  exact Hnumero.
Defined.

(** ** What can be done with the form *)

(** X19. While the loader is at work nothing of the form can be used. Once
    the form is shown, its six inputs can be edited, the submit button can
    be used exactly when no submit is in flight, and the delete button can
    be used always, a submit in flight or not. *)
Theorem form_actions (st : state) :
  let page := AccountPage (UpdateForm st) in
  possible page Submit = negb (isLoading st) && negb (isSubmitting st)
  ∧ possible page ClickDelete = negb (isLoading st)
  ∧ can_delete (UpdateForm st) = negb (isLoading st)
  ∧ (∀ i text, possible page (Edit i text)
               = negb (isLoading st) && bool_decide (i < 6)%nat)
  ∧ (isLoading st = true → ∀ a, possible page a = false).
Proof.
  intros page. subst page. unfold UpdateForm.
  destruct (isLoading st); simpl; by split_and!.
Qed.

Lemma form_actions_witness :
  possible (AccountPage (UpdateForm initial)) ClickDelete = false.
Proof.
  destruct (form_actions initial) as (_ & _ & _ & _ & Hloading).
  apply Hloading. reflexivity.
Defined.

Lemma load_success_state (w : world) (st : state) (data : conta) (c : Cliente) :
  get_answer w (log st ++ [Call (setIsLoading true)]) (lit "/conta") = Resolved data →
  cliente data = Some c →
  let st' := exec loadAccountData w st in
  isLoading st' = false
  ∧ values st'
    = <["telefone" := telefone c]>
        (<["numero" := String_ (numero c)]>
           (<["cep" := cep c]>
              (<["endereco" := endereco c]> (<["nome" := nome c]> (values st)))))
  ∧ errors st' = errors st
  ∧ isSubmitting st' = isSubmitting st
  ∧ toasts st' = toasts st.
Proof.
  intros Hget Hc st'. subst st'.
  unfold exec, loadAccountData. cbn. rewrite Hget. cbn.
  unfold get_cliente. rewrite Hc. cbn. by split_and!.
Qed.

(** X20. After a successful load the form is shown with its six inputs in
    the order name, postal code, address, house number, phone, password.
    The house-number input is handed the text of what the server sent, and
    each of the name, postal code, address and phone inputs is handed the
    server's value when that value is not [undefined]; the password input
    is handed what the form held for it before. The postal code and the
    phone carry their masks, and the submit button is enabled unless a
    submit is in flight. *)
Theorem loaded_form_shows_the_account (w : world) (st : state) (data : conta) (c : Cliente) :
  get_answer w (log st ++ [Call (setIsLoading true)]) (lit "/conta") = Resolved data →
  cliente data = Some c →
  ∃ i_nome i_cep i_endereco i_numero i_telefone i_senha submit delete,
    UpdateForm (exec loadAccountData w st)
    = Section_ [i_nome; i_cep; i_endereco; i_numero; i_telefone; i_senha]
        submit (toasts st) delete
    ∧ input_value i_numero = Some (String_ (numero c))
    ∧ (nome c ≠ VUndefined → input_value i_nome = Some (nome c))
    ∧ (cep c ≠ VUndefined → input_value i_cep = Some (cep c))
    ∧ (endereco c ≠ VUndefined → input_value i_endereco = Some (endereco c))
    ∧ (telefone c ≠ VUndefined → input_value i_telefone = Some (telefone c))
    ∧ input_value i_senha = field_value (values st !! "senha")
    ∧ map input_label [i_nome; i_cep; i_endereco; i_numero; i_telefone; i_senha]
      = [ lit "Nome Completo"; lit "CEP"; lit "Endere" ++ [231%N] ++ lit "o";
          lit "Numero"; lit "Telefone"; lit "Senha" ]
    ∧ map input_mask [i_nome; i_cep; i_endereco; i_numero; i_telefone; i_senha]
      = [ None; Some cep_mask; None; None; Some telefone_mask; None ]
    ∧ disabled submit = isSubmitting st.
Proof.
  intros Hget Hc.
  destruct (load_success_state w st data c Hget Hc)
    as (Hloading & Hvalues & Herrors & Hsubmitting & Htoasts).
  unfold UpdateForm. rewrite Hloading, Htoasts, Hsubmitting.
  do 8 eexists. split; [reflexivity|].
  unfold Controller. simpl. rewrite Hvalues.
  repeat first [rewrite lookup_insert_eq | rewrite lookup_insert_ne by discriminate].
  split; [reflexivity|].
  split; [intros Hv; by destruct (nome c)|].
  split; [intros Hv; by destruct (cep c)|].
  split; [intros Hv; by destruct (endereco c)|].
  split; [intros Hv; by destruct (telefone c)|].
  split; [reflexivity|]. split; [reflexivity|]. split; reflexivity.
Qed.

Lemma loaded_form_shows_the_account_witness :
  shown_values (UpdateForm (mount Sample.all_ok))
  = [ Some (VString (lit "Ana")); Some (VString (lit "01234-567"));
      Some (VString (lit "Rua A")); Some (VString (lit "42"));
      Some (VString (lit "+55 11 99999-9999")); None ].
Proof.
  destruct (loaded_form_shows_the_account Sample.all_ok initial
              {| cliente := Some Sample.cliente_ana |} Sample.cliente_ana)
    as (i1 & i2 & i3 & i4 & i5 & i6 & submit & delete & Hform & Hnumero & Hnome
        & Hcep & Hendereco & Htelefone & Hsenha & _); [reflexivity..|].
  unfold mount. rewrite Hform. unfold shown_values, map.
  rewrite Hnumero, Hnome, Hcep, Hendereco, Htelefone, Hsenha by discriminate.
  reflexivity.
Defined.
